(** * minilog-zero: a shallow embedding of the logger and its serializer

    The development follows [src/index.ts]: the constant tables
    ([COLORS], [LEVELS], [ICONS], [LEVEL_COLORS]), the serializer
    ([safeStringify], [formatArgs]) and the logger factory
    ([createLogger] with its closures [shouldLog], [log] and the method
    record).  The pieces of the ECMAScript runtime the code calls
    ([JSON.stringify], [String], the [in] operator, [Array.prototype.join],
    object spread) are written out next to the code that uses them. *)

From Stdlib Require Import ZArith DecimalString Ascii.
From stdpp Require Import gmap strings list fin_maps.

(** ** Text *)

Definition ESC : string := String (ascii_of_nat 27) EmptyString.
Definition LF : string := String (ascii_of_nat 10) EmptyString.
Definition DQUOTE : string := String (ascii_of_nat 34) EmptyString.
Definition BACKSLASH : string := String (ascii_of_nat 92) EmptyString.

(** [Array.prototype.join] on an array whose elements are strings. *)
Fixpoint join (sep : string) (parts : list string) : string :=
  match parts with
  | [] => EmptyString
  | p :: rest =>
      match rest with
      | [] => p
      | _ :: _ => p +:+ sep +:+ join sep rest
      end
  end.

Definition upper_ascii (c : ascii) : ascii :=
  let n := nat_of_ascii c in
  if (97 <=? n)%nat && (n <=? 122)%nat then ascii_of_nat (n - 32) else c.

(** [String.prototype.toUpperCase], on the ASCII range (the only strings
    the logger upper-cases are the five level names). *)
Fixpoint toUpperCase (s : string) : string :=
  match s with
  | EmptyString => EmptyString
  | String c rest => String (upper_ascii c) (toUpperCase rest)
  end.

(** Decimal rendering of an integer: [Number.prototype.toString] on an
    integer-valued number in the safe range, [BigInt.prototype.toString]
    on any big integer. *)
Definition Z_toString (n : Z) : string := NilZero.string_of_int (Z.to_int n).

(** [s] occurs in [t] ([String.prototype.includes]). *)
Definition includes (t s : string) : Prop :=
  ∃ before after, t = before +:+ s +:+ after.

(** ** JavaScript values *)

Inductive JsError :=
  | TypeError (message : string)
  | RangeError (message : string)
  | Thrown (message : string).

(** A normal or a throw completion. *)
Inductive Completion (A : Type) :=
  | Normal (a : A)
  | Abrupt (e : JsError).
Arguments Normal {A} a.
Arguments Abrupt {A} e.

Definition cbind {A B} (c : Completion A) (k : A → Completion B) : Completion B :=
  match c with
  | Normal a => k a
  | Abrupt e => Abrupt e
  end.

(** Numbers are the integer-valued ones, and [VNumber n] stands for a
    number when [n] is a safe integer ([safe_number] below); statements
    about the text of a number keep to that range.  Objects are
    references into a heap, so that two occurrences of one object are the
    same reference. *)
Inductive JsValue :=
  | VUndefined
  | VNull
  | VBoolean (b : bool)
  | VNumber (n : Z)
  | VBigInt (n : Z)
  | VString (s : string)
  | VSymbol (description : string)
  | VObject (r : nat).

(** An own enumerable property: a data property, or an accessor whose
    getter throws. *)
Inductive Property :=
  | Data (v : JsValue)
  | Accessor (thrown : JsError).

(** The kinds of object [safeStringify] tells apart.  [props] lists the
    own enumerable string-keyed properties in enumeration order. An
    Error's [name], [message] and [stack] are not enumerable and are kept
    apart; [stack] is [None] when the engine gives none.  A Date is its
    ISO rendering ([None] for an invalid date) and its [toString] text. *)
Inductive JsObject :=
  | OPlain (props : list (string * Property))
  | OArray (elems : list JsValue)
  | OError (name message : string) (stack : option string)
           (props : list (string * Property))
  | OMap (entries : list (string * JsValue))
  | OSet (members : list JsValue)
  | ORegExp (source flags : string)
  | ODate (iso : option string) (text : string).

(** A reference the heap does not bind reads as an object with no
    properties. *)
Definition get_object (h : gmap nat JsObject) (r : nat) : JsObject :=
  default (OPlain []) (h !! r).

(** ** Recursion over the heap

    The recursive runtime functions descend through references and are
    written with a depth budget; [OutOfFuel] is the budget running out. *)
Inductive Step (A : Type) :=
  | Ret (a : A)
  | Raise (e : JsError)
  | OutOfFuel.
Arguments Ret {A} a.
Arguments Raise {A} e.
Arguments OutOfFuel {A}.

Definition sbind {A B} (c : Step A) (k : A → Step B) : Step B :=
  match c with
  | Ret a => k a
  | Raise e => Raise e
  | OutOfFuel => OutOfFuel
  end.

Definition run {A} (c : Step A) : Completion A :=
  match c with
  | Ret a => Normal a
  | Raise e => Abrupt e
  | OutOfFuel => Abrupt (RangeError "Maximum call stack size exceeded")
  end.

(** ** [JSON.stringify(value, replacer, 2)] *)

Definition hex_digit (n : nat) : ascii :=
  match String.get n "0123456789abcdef" with
  | Some c => c
  | None => "0"%char
  end.

Definition quote_char (c : ascii) : string :=
  let n := nat_of_ascii c in
  if (n =? 34)%nat then BACKSLASH +:+ DQUOTE
  else if (n =? 92)%nat then BACKSLASH +:+ BACKSLASH
  else if (n =? 8)%nat then BACKSLASH +:+ "b"
  else if (n =? 9)%nat then BACKSLASH +:+ "t"
  else if (n =? 10)%nat then BACKSLASH +:+ "n"
  else if (n =? 12)%nat then BACKSLASH +:+ "f"
  else if (n =? 13)%nat then BACKSLASH +:+ "r"
  else if (n <? 32)%nat then
    BACKSLASH +:+ "u00" +:+ String (hex_digit (n / 16)) (String (hex_digit (n mod 16)) EmptyString)
  else String c EmptyString.

Fixpoint quote_chars (s : string) : string :=
  match s with
  | EmptyString => EmptyString
  | String c rest => quote_char c +:+ quote_chars rest
  end.

Definition QuoteJSONString (s : string) : string :=
  DQUOTE +:+ quote_chars s +:+ DQUOTE.

(** The properties [SerializeJSONObject] enumerates. *)
Definition enumerable_props (o : JsObject) : list (string * Property) :=
  match o with
  | OPlain props => props
  | OError _ _ _ props => props
  | _ => []
  end.

(** The elements of an array under their index keys. *)
Definition index_props (elems : list JsValue) : list (string * Property) :=
  imap (λ i v, (Z_toString (Z.of_nat i), Data v)) elems.

Definition object_members (items : list (string * option string)) : list string :=
  omap (λ '(k, o), (λ text, QuoteJSONString k +:+ ": " +:+ text) <$> o) items.

Definition array_members (items : list (string * option string)) : list string :=
  map (λ '(_, o), default "null" o) items.

Definition wrap (open close stepback indent : string) (members : list string) : string :=
  match members with
  | [] => open +:+ close
  | _ :: _ =>
      open +:+ LF +:+ indent +:+ join ("," +:+ LF +:+ indent) members
        +:+ LF +:+ stepback +:+ close
  end.

Section JSON.
Context {St : Type}.
(** The replacer function, with the state it closes over. *)
Variable replacer : St → string → JsValue → St * JsValue.
Variable h : gmap nat JsObject.

(** A Date has a [toJSON] method; the replacer sees its result. *)
Definition apply_toJSON (v : JsValue) : JsValue :=
  match v with
  | VObject r =>
      match h !! r with
      | Some (ODate (Some iso) _) => VString iso
      | Some (ODate None _) => VNull
      | _ => v
      end
  | _ => v
  end.

Fixpoint serialize_props
    (ser : St → string → Property → Step (St * option string))
    (st : St) (props : list (string * Property))
    : Step (St * list (string * option string)) :=
  match props with
  | [] => Ret (st, [])
  | (k, p) :: rest =>
      sbind (ser st k p) (λ '(st1, o),
      sbind (serialize_props ser st1 rest) (λ '(st2, items),
      Ret (st2, (k, o) :: items)))
  end.

(** [SerializeJSONProperty], with [SerializeJSONObject] and
    [SerializeJSONArray] inlined; [stack] holds the objects being
    serialized, [indent] the current indentation. *)
Fixpoint SerializeJSONProperty (fuel : nat) (stack : gset nat) (indent : string)
    (st : St) (key : string) (p : Property) : Step (St * option string) :=
  match fuel with
  | O => OutOfFuel
  | S fuel' =>
      match p with
      | Accessor e => Raise e
      | Data v0 =>
          let '(st1, v) := replacer st key (apply_toJSON v0) in
          match v with
          | VNull => Ret (st1, Some "null")
          | VBoolean b => Ret (st1, Some (if b then "true" else "false"))
          | VString s => Ret (st1, Some (QuoteJSONString s))
          | VNumber n => Ret (st1, Some (Z_toString n))
          | VBigInt _ => Raise (TypeError "Do not know how to serialize a BigInt")
          | VUndefined | VSymbol _ => Ret (st1, None)
          | VObject r =>
              if decide (r ∈ stack)
              then Raise (TypeError "Converting circular structure to JSON")
              else
                let stack' := {[r]} ∪ stack in
                let indent' := indent +:+ "  " in
                match get_object h r with
                | OArray elems =>
                    sbind (serialize_props (SerializeJSONProperty fuel' stack' indent')
                             st1 (index_props elems)) (λ '(st2, items),
                    Ret (st2, Some (wrap "[" "]" indent indent' (array_members items))))
                | o =>
                    sbind (serialize_props (SerializeJSONProperty fuel' stack' indent')
                             st1 (enumerable_props o)) (λ '(st2, items),
                    Ret (st2, Some (wrap "{" "}" indent indent' (object_members items))))
                end
          end
      end
  end.

(** The top-level call: the value is read as the property with the empty key of a wrapper. *)
Definition JSON_stringify (init : St) (value : JsValue) : Completion (option string) :=
  run (sbind (SerializeJSONProperty (S (size h)) ∅ EmptyString init EmptyString (Data value))
         (λ '(_, text), Ret text)).
End JSON.

(** [JSON.stringify(value, null, 2)]: no replacer. *)
Definition no_replacer (st : unit) (_ : string) (v : JsValue) : unit * JsValue := (st, v).

(** ** [String(value)] *)

Fixpoint smap {A B} (f : A → Step B) (l : list A) : Step (list B) :=
  match l with
  | [] => Ret []
  | a :: rest =>
      sbind (f a) (λ b, sbind (smap f rest) (λ bs, Ret (b :: bs)))
  end.

(** [Error.prototype.toString]. *)
Definition Error_toString (name message : string) : string :=
  if decide (name = EmptyString) then message
  else if decide (message = EmptyString) then name
  else name +:+ ": " +:+ message.

(** [ToString]: a symbol cannot be converted; an object is converted by
    its [toString] method, which for an array is [join(",")] (an array met
    again while it is being joined contributes the empty string). *)
Fixpoint ToString (h : gmap nat JsObject) (fuel : nat) (stack : gset nat)
    (v : JsValue) : Step string :=
  match fuel with
  | O => OutOfFuel
  | S fuel' =>
      match v with
      | VUndefined => Ret "undefined"
      | VNull => Ret "null"
      | VBoolean b => Ret (if b then "true" else "false")
      | VNumber n => Ret (Z_toString n)
      | VBigInt n => Ret (Z_toString n)
      | VString s => Ret s
      | VSymbol _ => Raise (TypeError "Cannot convert a Symbol value to a string")
      | VObject r =>
          match get_object h r with
          | OPlain _ => Ret "[object Object]"
          | OArray elems =>
              if decide (r ∈ stack) then Ret EmptyString
              else
                sbind (smap (λ e,
                         match e with
                         | VUndefined | VNull => Ret EmptyString
                         | _ => ToString h fuel' ({[r]} ∪ stack) e
                         end) elems) (λ parts,
                Ret (join "," parts))
          | OError name message _ _ => Ret (Error_toString name message)
          | OMap _ => Ret "[object Map]"
          | OSet _ => Ret "[object Set]"
          | ORegExp source flags => Ret ("/" +:+ source +:+ "/" +:+ flags)
          | ODate _ text => Ret text
          end
      end
  end.

(** [String(value)]: as [ToString], except that a symbol is described. *)
Definition js_String (h : gmap nat JsObject) (value : JsValue) : Completion string :=
  match value with
  | VSymbol description => Normal ("Symbol(" +:+ description +:+ ")")
  | _ => run (ToString h (S (size h)) ∅ value)
  end.

(** ** Property assignment on an ordinary object

    Own keys enumerate array indices first, in ascending order, then the
    other strings in creation order. *)
Definition array_index (k : string) : option N :=
  match NilZero.uint_of_string k with
  | Some u =>
      let n := N.of_uint u in
      if decide (NilZero.string_of_uint (N.to_uint n) = k ∧ (n < 4294967295)%N)
      then Some n else None
  | None => None
  end.

Fixpoint insert_index (i : N) (k : string) (v : JsValue)
    (props : list (string * JsValue)) : list (string * JsValue) :=
  match props with
  | [] => [(k, v)]
  | (k', v') :: rest =>
      match array_index k' with
      | Some j => if (j <? i)%N then (k', v') :: insert_index i k v rest
                  else (k, v) :: props
      | None => (k, v) :: props
      end
  end.

(** Defining the data property [k] with value [v]. *)
Definition set_property (props : list (string * JsValue)) (k : string) (v : JsValue)
    : list (string * JsValue) :=
  if decide (k ∈ props.*1) then
    map (λ '(k', v'), if decide (k' = k) then (k', v) else (k', v')) props
  else
    match array_index k with
    | Some i => insert_index i k v props
    | None => props ++ [(k, v)]
    end.

(** [obj[k] = v] on an object whose prototype is [Object.prototype]:
    the key [__proto__] is the accessor the prototype holds, and assigning
    to it adds no property. *)
Definition assign_property (props : list (string * JsValue)) (k : string) (v : JsValue)
    : list (string * JsValue) :=
  if decide (k = "__proto__") then props else set_property props k v.

(** [Object.fromEntries] on the entries of a Map keyed by strings. *)
Definition Object_fromEntries (entries : list (string * JsValue))
    : list (string * JsValue) :=
  fold_left (λ obj '(k, v), set_property obj k v) entries [].

(** A fresh ordinary object holding [props]. *)
Definition alloc_object (h : gmap nat JsObject) (o : JsObject)
    : gmap nat JsObject * JsValue :=
  let r := fresh (dom h) in (<[r := o]> h, VObject r).

Definition data_props (props : list (string * JsValue)) : list (string * Property) :=
  map (λ '(k, v), (k, Data v)) props.

(** ** The serializer of the logger *)

(** The replacer [safeStringify] passes to [JSON.stringify]; [seen] is
    the [WeakSet] it closes over. *)
Definition circular_replacer (seen : gset nat) (_key : string) (val : JsValue)
    : gset nat * JsValue :=
  match val with
  | VBigInt n => (seen, VString (Z_toString n +:+ "n"))
  | VObject r =>
      if decide (r ∈ seen) then (seen, VString "[Circular]")
      else ({[r]} ∪ seen, val)
  | _ => (seen, val)
  end.

(** The loop copying the custom properties of an error into [errorObj]. *)
Fixpoint copy_own_props (value_props : list (string * Property))
    (errorObj : list (string * JsValue)) : Completion (list (string * JsValue)) :=
  match value_props with
  | [] => Normal errorObj
  | (key, Data v) :: rest => copy_own_props rest (assign_property errorObj key v)
  | (_, Accessor e) :: _ => Abrupt e
  end.

(** The text of a [JSON.stringify] result where a string is expected;
    an [undefined] result is joined as the empty string and interpolated
    as the word. *)
Definition returned (c : Completion (option string)) : Completion string :=
  cbind c (λ o, Normal (default EmptyString o)).

Definition interpolated (c : Completion (option string)) : Completion string :=
  cbind c (λ o, Normal (default "undefined" o)).

Definition safeStringify (h : gmap nat JsObject) (value : JsValue) : Completion string :=
  match value with
  | VNull => Normal "null"
  | VUndefined => Normal "undefined"
  | VObject r =>
      match get_object h r with
      | OError name message stack props =>
          let errorObj := [("name", VString name); ("message", VString message)] in
          let errorObj :=
            match stack with
            | Some s => if decide (s = EmptyString) then errorObj
                        else assign_property errorObj "stack" (VString s)
            | None => errorObj
            end in
          cbind (copy_own_props props errorObj) (λ errorObj,
          let '(h', obj) := alloc_object h (OPlain (data_props errorObj)) in
          returned (JSON_stringify no_replacer h' tt obj))
      | OMap entries =>
          let '(h', obj) :=
            alloc_object h (OPlain (data_props (Object_fromEntries entries))) in
          cbind (interpolated (JSON_stringify no_replacer h' tt obj)) (λ text,
          Normal ("Map(" +:+ Z_toString (Z.of_nat (length entries)) +:+ ") " +:+ text))
      | OSet members =>
          let '(h', arr) := alloc_object h (OArray members) in
          cbind (interpolated (JSON_stringify no_replacer h' tt arr)) (λ text,
          Normal ("Set(" +:+ Z_toString (Z.of_nat (length members)) +:+ ") " +:+ text))
      | ORegExp source flags => Normal ("/" +:+ source +:+ "/" +:+ flags)
      | ODate iso _ =>
          match iso with
          | Some text => Normal text
          | None => Abrupt (RangeError "Invalid time value")
          end
      | OPlain _ | OArray _ =>
          match returned (JSON_stringify circular_replacer h ∅ value) with
          | Normal text => Normal text
          | Abrupt _ => js_String h value
          end
      end
  | VBigInt n => Normal (Z_toString n +:+ "n")
  | _ => js_String h value
  end.

Fixpoint map_args (f : JsValue → Completion string) (args : list JsValue)
    : Completion (list string) :=
  match args with
  | [] => Normal []
  | arg :: rest =>
      cbind (f arg) (λ text, cbind (map_args f rest) (λ texts, Normal (text :: texts)))
  end.

Definition formatArgs (h : gmap nat JsObject) (args : list JsValue) : Completion string :=
  cbind (map_args (λ arg,
           match arg with
           | VString s => Normal s
           | _ => safeStringify h arg
           end) args) (λ texts,
  Normal (join " " texts)).

(** ** The constant tables *)

Module COLORS.
Definition reset : string := ESC +:+ "[0m".
Definition gray : string := ESC +:+ "[90m".
Definition cyan : string := ESC +:+ "[36m".
Definition yellow : string := ESC +:+ "[33m".
Definition red : string := ESC +:+ "[31m".
Definition green : string := ESC +:+ "[32m".
End COLORS.

(** The level an emit method passes to [log]: one of five literals. *)
Inductive LogLevel := Debug | Info | Warn | Error | Success.

Definition level_name (level : LogLevel) : string :=
  match level with
  | Debug => "debug"
  | Info => "info"
  | Warn => "warn"
  | Error => "error"
  | Success => "success"
  end.

Definition all_levels : list LogLevel := [Debug; Info; Warn; Error; Success].

(** The object [LEVELS], as its own properties in enumeration order. *)
Definition LEVELS : list (string * Z) :=
  [("debug", 0%Z); ("info", 1%Z); ("warn", 2%Z); ("error", 3%Z); ("success", 3%Z)].

Definition ICONS (level : LogLevel) : string :=
  match level with
  | Debug => "🔍"
  | Info => "ℹ️"
  | Warn => "⚠️"
  | Error => "❌"
  | Success => "✅"
  end.

Definition LEVEL_COLORS (level : LogLevel) : string :=
  match level with
  | Debug => COLORS.gray
  | Info => COLORS.cyan
  | Warn => COLORS.yellow
  | Error => COLORS.red
  | Success => COLORS.green
  end.

(** ** Property lookup on [LEVELS]

    [LEVELS] is an object literal, so its prototype is [Object.prototype]:
    a lookup that misses the own properties finds the inherited ones. *)
Definition Object_prototype_keys : list string :=
  ["constructor"; "__defineGetter__"; "__defineSetter__"; "hasOwnProperty";
   "__lookupGetter__"; "__lookupSetter__"; "isPrototypeOf";
   "propertyIsEnumerable"; "toString"; "valueOf"; "__proto__"; "toLocaleString"].

Inductive Lookup :=
  | Own (n : Z)
  | Inherited
  | Missing.

Fixpoint assoc (k : string) (table : list (string * Z)) : option Z :=
  match table with
  | [] => None
  | (k', n) :: rest => if decide (k' = k) then Some n else assoc k rest
  end.

(** [LEVELS[key]]. *)
Definition LEVELS_get (key : string) : Lookup :=
  match assoc key LEVELS with
  | Some n => Own n
  | None => if decide (key ∈ Object_prototype_keys) then Inherited else Missing
  end.

(** [key in LEVELS]. *)
Definition in_LEVELS (key : string) : bool :=
  match LEVELS_get key with
  | Missing => false
  | _ => true
  end.

(** [ToNumber] of a lookup result; [None] is NaN ([undefined], and the
    functions and the object that [Object.prototype] holds, convert to NaN). *)
Definition ToNumber (l : Lookup) : option Z :=
  match l with
  | Own n => Some n
  | Inherited | Missing => None
  end.

(** [a >= b]: false as soon as one side is NaN. *)
Definition js_ge (a b : Lookup) : bool :=
  match ToNumber a, ToNumber b with
  | Some x, Some y => (y <=? x)%Z
  | _, _ => false
  end.

(** ** Options, instances and the world *)

(** A field of an options object: the key is absent, or present with a
    value, where [None] is [undefined]. *)
Inductive Field (A : Type) :=
  | Absent
  | Present (v : option A).
Arguments Absent {A}.
Arguments Present {A} v.

Record LoggerOptions := {
  opt_prefix : Field string;
  opt_timestamp : Field bool;
  opt_level : Field string;
  opt_icons : Field bool
}.

Definition no_options : LoggerOptions :=
  {| opt_prefix := Absent; opt_timestamp := Absent;
     opt_level := Absent; opt_icons := Absent |}.

(** [field ?? fallback]. *)
Definition or_default {A} (f : Field A) (fallback : A) : A :=
  match f with
  | Present (Some a) => a
  | Present None | Absent => fallback
  end.

Definition spread_field {A} (base over : Field A) : Field A :=
  match over with
  | Absent => base
  | Present _ => over
  end.

(** The object literal [{ ...base, ...over }]: a key present in [over]
    wins, whatever its value. *)
Definition spread (base : LoggerOptions) (over : option LoggerOptions) : LoggerOptions :=
  match over with
  | None => base
  | Some o =>
      {| opt_prefix := spread_field (opt_prefix base) (opt_prefix o);
         opt_timestamp := spread_field (opt_timestamp base) (opt_timestamp o);
         opt_level := spread_field (opt_level base) (opt_level o);
         opt_icons := spread_field (opt_icons base) (opt_icons o) |}
  end.

(** The variables one call of [createLogger] binds; the closures of the
    logger share them, and only [currentLevel] is assigned again. *)
Record Instance := {
  currentLevel : string;
  prefix : string;
  showTimestamp : bool;
  showIcons : bool
}.

Inductive ConsoleMethod := console_log | console_error | console_warn.

Inductive Stream := stdout | stderr.

(** Where Node.js sends what each console method prints. *)
Definition stream_of (m : ConsoleMethod) : Stream :=
  match m with
  | console_log => stdout
  | console_error | console_warn => stderr
  end.

(** The world: the heap of the values passed as arguments, the ISO text
    of the current time, the lines printed so far (oldest first), the
    logger instances created so far, by identity, and the logger objects
    whose [create] property has been assigned [createLogger] itself (the
    module does so to the object it exports: [module.exports.create =
    createLogger], with [module.exports] being [defaultLogger]). *)
Record World := {
  heap : gmap nat JsObject;
  clock : string;
  console : list (ConsoleMethod * string);
  loggers : gmap nat Instance;
  rebound : gset nat
}.

Inductive Outcome (A : Type) :=
  | Returns (a : A) (w : World)
  | Throws (e : JsError) (w : World).
Arguments Returns {A} a w.
Arguments Throws {A} e w.

Definition world_of {A} (o : Outcome A) : World :=
  match o with
  | Returns _ w => w
  | Throws _ w => w
  end.

Definition print (m : ConsoleMethod) (line : string) (w : World) : World :=
  {| heap := heap w; clock := clock w;
     console := console w ++ [(m, line)]; loggers := loggers w;
     rebound := rebound w |}.

Definition store (l : nat) (env : Instance) (w : World) : World :=
  {| heap := heap w; clock := clock w;
     console := console w; loggers := <[l := env]> (loggers w);
     rebound := rebound w |}.

(** A new logger object: its [create] is the closure of its own record. *)
Definition allocate (l : nat) (env : Instance) (w : World) : World :=
  {| heap := heap w; clock := clock w;
     console := console w; loggers := <[l := env]> (loggers w);
     rebound := rebound w ∖ {[l]} |}.

(** [module.exports = l; module.exports.create = createLogger]. *)
Definition export (l : nat) (w : World) : World :=
  {| heap := heap w; clock := clock w;
     console := console w; loggers := loggers w;
     rebound := {[l]} ∪ rebound w |}.

(** ** [createLogger] and its closures *)

Definition shouldLog (env : Instance) (level : LogLevel) : bool :=
  js_ge (LEVELS_get (level_name level)) (LEVELS_get (currentLevel env)).

Definition console_method (level : LogLevel) : ConsoleMethod :=
  match level with
  | Error => console_error
  | Warn => console_warn
  | _ => console_log
  end.

Definition push (parts : list string) (part : string) : list string := parts ++ [part].

Definition log (env : Instance) (level : LogLevel) (args : list JsValue) (w : World)
    : Outcome unit :=
  if negb (shouldLog env level) then Returns tt w
  else
    let parts := [] in
    let color := LEVEL_COLORS level in
    let parts := if showIcons env then push parts (ICONS level) else parts in
    let parts :=
      if showTimestamp env
      then push parts (COLORS.gray +:+ "[" +:+ clock w +:+ "]" +:+ COLORS.reset)
      else parts in
    let parts :=
      if decide (prefix env = EmptyString) then parts
      else push parts (color +:+ prefix env +:+ COLORS.reset) in
    let parts :=
      push parts (color +:+ "[" +:+ toUpperCase (level_name level) +:+ "]" +:+ COLORS.reset) in
    match formatArgs (heap w) args with
    | Abrupt e => Throws e w
    | Normal message =>
        let parts := push parts message in
        let output := join " " parts in
        Returns tt (print (console_method level) output w)
    end.

(** [createLogger(options)]: a new instance, under a new identity. *)
Definition createLogger (options : option LoggerOptions) (w : World) : Outcome nat :=
  let options := default no_options options in
  let env :=
    {| currentLevel := or_default (opt_level options) "debug";
       prefix := or_default (opt_prefix options) EmptyString;
       showTimestamp := or_default (opt_timestamp options) false;
       showIcons := or_default (opt_icons options) true |} in
  let l := fresh (dom (loggers w)) in
  Returns l (allocate l env w).

Definition invalid_level_message (level : string) : string :=
  "Invalid log level: " +:+ DQUOTE +:+ level +:+ DQUOTE +:+ ". Valid levels: "
    +:+ join ", " (LEVELS.*1).

(** The methods of a logger, called on the identity [l] of a logger. *)
Module Logger.

Definition call {A} (l : nat) (w : World) (method : Instance → Outcome A) : Outcome A :=
  match loggers w !! l with
  | Some env => method env
  | None => Throws (TypeError "Cannot read properties of undefined") w
  end.

Definition debug (l : nat) (args : list JsValue) (w : World) : Outcome unit :=
  call l w (λ env, log env Debug args w).
Definition info (l : nat) (args : list JsValue) (w : World) : Outcome unit :=
  call l w (λ env, log env Info args w).
Definition warn (l : nat) (args : list JsValue) (w : World) : Outcome unit :=
  call l w (λ env, log env Warn args w).
Definition error (l : nat) (args : list JsValue) (w : World) : Outcome unit :=
  call l w (λ env, log env Error args w).
Definition success (l : nat) (args : list JsValue) (w : World) : Outcome unit :=
  call l w (λ env, log env Success args w).

Definition create (l : nat) (newOptions : option LoggerOptions) (w : World) : Outcome nat :=
  call l w (λ env,
    if decide (l ∈ rebound w) then createLogger newOptions w
    else
      createLogger
        (Some (spread {| opt_prefix := Present (Some (prefix env));
                         opt_timestamp := Present (Some (showTimestamp env));
                         opt_level := Present (Some (currentLevel env));
                         opt_icons := Present (Some (showIcons env)) |}
                      newOptions)) w).

Definition setLevel (l : nat) (level : string) (w : World) : Outcome unit :=
  call l w (λ env,
    if negb (in_LEVELS level) then Throws (TypeError (invalid_level_message level)) w
    else
      Returns tt (store l {| currentLevel := level; prefix := prefix env;
                             showTimestamp := showTimestamp env;
                             showIcons := showIcons env |} w)).

Definition getLevel (l : nat) (w : World) : Outcome string :=
  call l w (λ env, Returns (currentLevel env) w).

(** The emit method of each level. *)
Definition emit (level : LogLevel) : nat → list JsValue → World → Outcome unit :=
  match level with
  | Debug => debug
  | Info => info
  | Warn => warn
  | Error => error
  | Success => success
  end.

End Logger.

(** The world a program starts in: nothing printed, and the default
    logger, [createLogger()], under identity [defaultLogger], exported by
    the module. *)
Definition empty_world (h : gmap nat JsObject) (now : string) : World :=
  {| heap := h; clock := now; console := []; loggers := ∅; rebound := ∅ |}.

Definition initial_world (h : gmap nat JsObject) (now : string) : World :=
  match createLogger None (empty_world h now) with
  | Returns l w => export l w
  | Throws _ w => w
  end.

Definition defaultLogger : nat := fresh (dom (∅ : gmap nat Instance)).

(** ** The specification side *)

(** The priority table of the data model. *)
Definition priority (level : LogLevel) : Z :=
  match level with
  | Debug => 0
  | Info => 1
  | Warn => 2
  | Error => 3
  | Success => 3
  end.

(** The five recognized severity names. *)
Definition valid_names : list string := level_name <$> all_levels.

(** A segment that is there only when its feature is on. *)
Definition segment (present : bool) (text : string) : list string :=
  if present then [text] else [].

Definition level_tag (level : LogLevel) : string :=
  LEVEL_COLORS level +:+ "[" +:+ toUpperCase (level_name level) +:+ "]" +:+ COLORS.reset.

(** The rendered line as the rendering algorithm words it: icon,
    timestamp, prefix, level tag, message, joined by single spaces. *)
Definition spec_line (env : Instance) (level : LogLevel) (now message : string) : string :=
  join " "
    (segment (showIcons env) (ICONS level)
     ++ segment (showTimestamp env) (COLORS.gray +:+ "[" +:+ now +:+ "]" +:+ COLORS.reset)
     ++ segment (negb (bool_decide (prefix env = EmptyString)))
          (LEVEL_COLORS level +:+ prefix env +:+ COLORS.reset)
     ++ [level_tag level]
     ++ [message]).

(** The text of one argument in the message segment. *)
Definition arg_text (h : gmap nat JsObject) (arg : JsValue) : Completion string :=
  match arg with
  | VString s => Normal s
  | _ => safeStringify h arg
  end.

(** The field of a child: the override when a value is given, the
    default when the key is present without one, else the parent's. *)
Definition inherited {A} (parent : A) (over : Field A) (fallback : A) : A :=
  match over with
  | Absent => parent
  | Present (Some a) => a
  | Present None => fallback
  end.

Definition field_of {A} (get : LoggerOptions → Field A) (overrides : option LoggerOptions)
    : Field A :=
  match overrides with
  | Some o => get o
  | None => Absent
  end.

(** The operations of a logger, to speak of all of them at once. *)
Inductive Operation :=
  | OpEmit (level : LogLevel) (args : list JsValue)
  | OpGetLevel
  | OpCreate (overrides : option LoggerOptions)
  | OpSetLevel (level : string).

(** The world an operation leaves, and whether it returned. *)
Definition outcome_of {A} (o : Outcome A) : World * bool :=
  match o with
  | Returns _ w => (w, true)
  | Throws _ w => (w, false)
  end.

Definition perform (op : Operation) (l : nat) (w : World) : World * bool :=
  match op with
  | OpEmit level args => outcome_of (Logger.emit level l args w)
  | OpGetLevel => outcome_of (Logger.getLevel l w)
  | OpCreate overrides => outcome_of (Logger.create l overrides w)
  | OpSetLevel level => outcome_of (Logger.setLevel l level w)
  end.

(** The instance a child of [env] holds. *)
Definition child_of (env : Instance) (overrides : option LoggerOptions) : Instance :=
  {| currentLevel := inherited (currentLevel env) (field_of opt_level overrides) "debug";
     prefix := inherited (prefix env) (field_of opt_prefix overrides) EmptyString;
     showTimestamp :=
       inherited (showTimestamp env) (field_of opt_timestamp overrides) false;
     showIcons := inherited (showIcons env) (field_of opt_icons overrides) true |}.

(** Heaps of plain data: no enumerable property is a throwing accessor. *)
Definition is_data (p : Property) : bool :=
  match p with
  | Data _ => true
  | Accessor _ => false
  end.

Definition plain_data (h : gmap nat JsObject) : Prop :=
  map_Forall (λ _ o, forallb (λ kp, is_data kp.2) (enumerable_props o) = true) h.

(** The text [JSON.stringify] prints for the marker string. *)
Definition marker : string := QuoteJSONString "[Circular]".

Definition is_date (h : gmap nat JsObject) (r : nat) : bool :=
  match h !! r with
  | Some (ODate _ _) => true
  | _ => false
  end.

(** The object at [r] is a plain object or an array, and it holds a
    reference to itself. *)
Definition plain_or_array (h : gmap nat JsObject) (r : nat) : Prop :=
  match h !! r with
  | Some (OPlain _) | Some (OArray _) => True
  | _ => False
  end.


(** What one property serializer must provide for a list of properties
    to be serialized without failure. *)
Definition serializes (h : gmap nat JsObject)
    (f : gset nat → string → Property → Step (gset nat * option string))
    (stack : gset nat) (n : nat) : Prop :=
  ∀ seen key v,
    stack ⊆ seen → size (dom h ∖ seen) < n →
    ∃ seen' o, f seen key (Data v) = Ret (seen', o) ∧ seen ⊆ seen'
      ∧ (∀ r, v = VObject r → r ∈ seen → is_date h r = false → o = Some marker).

(** ** Sample worlds *)

Definition sample_clock : string := "2024-01-15T10:30:00.000Z".

(** No objects, and the default logger. *)
Definition world0 : World := initial_world ∅ sample_clock.

Definition default_instance : Instance :=
  {| currentLevel := "debug"; prefix := EmptyString;
     showTimestamp := false; showIcons := true |}.

Definition myapp_options : LoggerOptions :=
  {| opt_prefix := Present (Some "[MyApp]"); opt_timestamp := Present (Some false);
     opt_level := Present (Some "debug"); opt_icons := Present (Some true) |}.

(** The world after [create({ prefix: '[MyApp]', ... })], and the logger
    it made. *)
Definition myapp_logger : nat := fresh (dom (loggers world0)).

Definition world1 : World := world_of (createLogger (Some myapp_options) world0).

Definition myapp_instance : Instance :=
  {| currentLevel := "debug"; prefix := "[MyApp]";
     showTimestamp := false; showIcons := true |}.

Definition verbose_options : LoggerOptions :=
  {| opt_prefix := Absent; opt_timestamp := Absent;
     opt_level := Present (Some "verbose"); opt_icons := Absent |}.


Definition getter_heap : gmap nat JsObject :=
  <[0 := OPlain [("x", Accessor (Thrown "no"))]]> ∅.

(** Values the special branches of the serializer take: a Set and a Map
    holding a big integer, an Error with itself as a custom property, an
    invalid Date. *)
Definition hostile_heap : gmap nat JsObject :=
  <[0 := OSet [VBigInt 1]]>
  (<[1 := OMap [("k", VBigInt 1)]]>
  (<[2 := OError "Error" "boom" (Some "Error: boom") [("self", Data (VObject 2))]]>
  (<[3 := ODate None "Invalid Date"]> ∅))).

(** ** Further specification *)

Definition is_primitive (v : JsValue) : bool :=
  match v with
  | VObject _ => false
  | _ => true
  end.

(** The integers a number stands for are the safe ones, up to
    [Number.MAX_SAFE_INTEGER] in absolute value; on these [String] and
    JSON print the decimal digits. *)
Definition safe_number (v : JsValue) : bool :=
  match v with
  | VNumber n => (Z.abs n <=? 9007199254740991)%Z
  | _ => true
  end.

Definition is_bigint (v : JsValue) : bool :=
  match v with
  | VBigInt _ => true
  | _ => false
  end.

(** The text of a primitive argument in the message segment. *)
Definition primitive_text (v : JsValue) : string :=
  match v with
  | VUndefined => "undefined"
  | VNull => "null"
  | VBoolean b => if b then "true" else "false"
  | VNumber n => Z_toString n
  | VBigInt n => Z_toString n +:+ "n"
  | VString s => s
  | VSymbol description => "Symbol(" +:+ description +:+ ")"
  | VObject _ => EmptyString
  end.

(** The JSON text of a primitive that is not a big integer; [None] for
    the values JSON leaves out. *)
Definition primitive_json (v : JsValue) : option string :=
  match v with
  | VNull => Some "null"
  | VBoolean b => Some (if b then "true" else "false")
  | VNumber n => Some (Z_toString n)
  | VString s => Some (QuoteJSONString s)
  | _ => None
  end.

(** The same under the replacer of the logger, which turns a big
    integer into a string. *)
Definition guarded_json (v : JsValue) : option string :=
  match v with
  | VBigInt n => Some (QuoteJSONString (Z_toString n +:+ "n"))
  | _ => primitive_json v
  end.

Definition json_items (text : JsValue → option string) (props : list (string * JsValue))
    : list (string * option string) :=
  map (λ '(k, v), (k, text v)) props.

(** The elements of an array as index-keyed pairs. *)
Definition index_pairs (elems : list JsValue) : list (string * JsValue) :=
  imap (λ i v, (Z_toString (Z.of_nat i), v)) elems.

(** The keys [safeStringify] itself writes into [errorObj]. *)
Definition reserved_keys : list string := ["name"; "message"; "stack"].

(** More sample heaps: a Set and a Map of primitives, an Error with a
    custom code, a flat object and a flat array, an object holding one
    object twice. *)
Definition container_heap : gmap nat JsObject :=
  <[0 := OSet [VNumber 1; VString "a"; VUndefined]]>
  (<[1 := OMap [("b", VNumber 1); ("2", VString "x")]]>
  (<[2 := OError "Error" "boom" (Some "Error: boom") [("code", Data (VString "E1"))]]>
  (<[3 := OPlain (data_props [("name", VString "a"); ("n", VBigInt 5);
                              ("u", VUndefined)])]>
  (<[4 := OArray [VNumber 1; VUndefined; VBigInt 2]]> ∅)))).

Definition shared_heap : gmap nat JsObject :=
  <[0 := OPlain [("a", Data (VObject 1)); ("b", Data (VObject 1))]]>
  (<[1 := OPlain [("x", Data (VNumber 1))]]> ∅).

(** The built-in objects without enumerable properties of their own. *)
Definition is_opaque (o : JsObject) : bool :=
  match o with
  | OMap _ | OSet _ | ORegExp _ _ => true
  | _ => false
  end.

Definition nested_heap : gmap nat JsObject :=
  <[0 := OPlain [("m", Data (VObject 1)); ("n", Data (VNumber 1))]]>
  (<[1 := OMap [("k", VNumber 1)]]> ∅).

(** ** The guarded rendering, as the specification words it

    Pretty-printed JSON, two spaces a level, with a set of the objects
    already visited in this pass: an object met again is the marker in
    its place and is not entered; one met for the first time joins the
    set and is rendered with its properties, or elements, in order.  A
    Date is its ISO text, a big integer its digits followed by n. *)








(** * Properties *)

(** ** Calls on a logger *)

Lemma call_found {A} (l : nat) (w : World) (env : Instance)
    (method : Instance → Outcome A) :
  loggers w !! l = Some env → Logger.call l w method = method env.
Proof. intros Hl. unfold Logger.call. by rewrite Hl. Qed.

Lemma emit_log (level : LogLevel) (l : nat) (args : list JsValue) (w : World) :
  Logger.emit level l args w = Logger.call l w (λ env, log env level args w).
Proof. by destruct level. Qed.

Lemma print_console (m : ConsoleMethod) (line : string) (w : World) :
  console (print m line w) ≠ console w.
Proof.
  simpl. intros Heq. apply (f_equal length) in Heq.
  rewrite length_app in Heq. simpl in Heq. lia.
Qed.

(** ** Filtering *)

Lemma shouldLog_priority (env : Instance) (S T : LogLevel) :
  currentLevel env = level_name T →
  shouldLog env S = bool_decide (priority T ≤ priority S)%Z.
Proof.
  intros HT. unfold shouldLog. rewrite HT. by destruct S, T.
Qed.

Lemma log_filtered (env : Instance) (level : LogLevel) (args : list JsValue) (w : World) :
  shouldLog env level = false → log env level args w = Returns tt w.
Proof. intros Hs. unfold log. by rewrite Hs. Qed.

Lemma log_passed (env : Instance) (level : LogLevel) (args : list JsValue) (w : World) :
  shouldLog env level = true →
  log env level args w =
    match formatArgs (heap w) args with
    | Normal message =>
        Returns tt (print (console_method level)
                      (spec_line env level (clock w) message) w)
    | Abrupt e => Throws e w
    end.
Proof.
  intros Hs. unfold log. rewrite Hs. cbn [negb].
  destruct (formatArgs (heap w) args) as [message|e]; [|done].
  do 2 f_equal. unfold spec_line, push, segment, level_tag.
  destruct (showIcons env), (showTimestamp env);
    case_bool_decide; case_decide; done.
Qed.

Lemma emit_prints (S : LogLevel) (l : nat) (env : Instance) (args : list JsValue)
    (w : World) (message : string) :
  loggers w !! l = Some env →
  shouldLog env S = true →
  formatArgs (heap w) args = Normal message →
  Logger.emit S l args w
    = Returns tt (print (console_method S) (spec_line env S (clock w) message) w).
Proof.
  intros Hl Hs Hm. rewrite emit_log, (call_found _ _ _ _ Hl), log_passed by done.
  by rewrite Hm.
Qed.

(** X18: with the threshold [T] held by a logger, an emit call at
    severity [S] is decided by the priority table: below the threshold
    the call returns and leaves the world as it was, whatever its
    arguments; at or above it the call prints one line provided its
    arguments render to a text; and a call that returns has printed if
    and only if [priority S >= priority T]. *)
Theorem threshold_filtering (S T : LogLevel) (l : nat) (env : Instance)
    (args : list JsValue) (w : World) :
  loggers w !! l = Some env →
  currentLevel env = level_name T →
  shouldLog env S = bool_decide (priority T ≤ priority S)%Z
  ∧ ((priority S < priority T)%Z → Logger.emit S l args w = Returns tt w)
  ∧ ((priority T ≤ priority S)%Z → ∀ message,
       formatArgs (heap w) args = Normal message →
       ∃ line, Logger.emit S l args w = Returns tt (print (console_method S) line w))
  ∧ (∀ w', Logger.emit S l args w = Returns tt w' →
       console w' ≠ console w ↔ (priority T ≤ priority S)%Z).
Proof.
  intros Hl HT. pose proof (shouldLog_priority env S T HT) as Hs.
  rewrite emit_log, (call_found _ _ _ _ Hl).
  split; [done|]. split; [|split].
  - intros Hlt. apply log_filtered. rewrite Hs. apply bool_decide_eq_false_2. lia.
  - intros Hle message Hm. rewrite log_passed, Hm; [eauto|].
    rewrite Hs. by apply bool_decide_eq_true_2.
  - intros w' Hw'. destruct (decide (priority T ≤ priority S)%Z) as [Hle|Hlt].
    + rewrite log_passed in Hw' by (rewrite Hs; by apply bool_decide_eq_true_2).
      destruct (formatArgs (heap w) args); [|done].
      injection Hw' as <-. split; [done|]. intros _. apply print_console.
    + rewrite log_filtered in Hw' by (rewrite Hs; by apply bool_decide_eq_false_2).
      injection Hw' as <-. split; [done|]. intros Hle. by destruct Hlt.
Qed.

Lemma threshold_filtering_witness :
  ∃ line, Logger.emit Info defaultLogger [VString "x"] world0
          = Returns tt (print console_log line world0).
Proof.
  destruct (threshold_filtering Info Debug defaultLogger default_instance
              [VString "x"] world0 eq_refl eq_refl) as (_ & _ & Hprints & _).
  apply (Hprints ltac:(done) "x" eq_refl).
Defined.

(** ** Level control *)

Lemma in_LEVELS_valid (T : LogLevel) : in_LEVELS (level_name T) = true.
Proof. by destruct T. Qed.

Lemma assoc_LEVELS_None (level : string) :
  level ∉ valid_names → assoc level LEVELS = None.
Proof.
  intros Hn. unfold LEVELS. simpl.
  repeat (case_decide;
    [subst level; exfalso; apply Hn; unfold valid_names, all_levels; simpl; set_solver|]).
  done.
Qed.

Lemma ToNumber_invalid (level : string) :
  level ∉ valid_names → ToNumber (LEVELS_get level) = None.
Proof.
  intros Hn. unfold LEVELS_get. rewrite assoc_LEVELS_None by done.
  by case_decide.
Qed.

Lemma shouldLog_invalid (env : Instance) (S : LogLevel) :
  currentLevel env ∉ valid_names → shouldLog env S = false.
Proof.
  intros Hn. unfold shouldLog, js_ge. rewrite (ToNumber_invalid _ Hn).
  by destruct (ToNumber _).
Qed.

Lemma lookup_store (l : nat) (env : Instance) (w : World) :
  loggers (store l env w) !! l = Some env.
Proof. apply lookup_insert_eq. Qed.

Lemma lookup_store_ne (l j : nat) (env : Instance) (w : World) :
  l ≠ j → loggers (store l env w) !! j = loggers w !! j.
Proof. intros Hne. by apply lookup_insert_ne. Qed.

Lemma lookup_allocate (l : nat) (env : Instance) (w : World) :
  loggers (allocate l env w) !! l = Some env.
Proof. apply lookup_insert_eq. Qed.

Lemma lookup_allocate_ne (l j : nat) (env : Instance) (w : World) :
  l ≠ j → loggers (allocate l env w) !! j = loggers w !! j.
Proof. intros Hne. by apply lookup_insert_ne. Qed.

Lemma setLevel_accepted (l : nat) (env : Instance) (level : string) (w : World) :
  loggers w !! l = Some env → in_LEVELS level = true →
  Logger.setLevel l level w =
    Returns tt (store l {| currentLevel := level; prefix := prefix env;
                           showTimestamp := showTimestamp env;
                           showIcons := showIcons env |} w).
Proof.
  intros Hl Hin. unfold Logger.setLevel. rewrite (call_found _ _ _ _ Hl).
  by rewrite Hin.
Qed.

Lemma setLevel_rejected (l : nat) (env : Instance) (level : string) (w : World) :
  loggers w !! l = Some env → in_LEVELS level = false →
  Logger.setLevel l level w = Throws (TypeError (invalid_level_message level)) w.
Proof.
  intros Hl Hin. unfold Logger.setLevel. rewrite (call_found _ _ _ _ Hl).
  by rewrite Hin.
Qed.

Lemma getLevel_current (l : nat) (env : Instance) (w : World) :
  loggers w !! l = Some env → Logger.getLevel l w = Returns (currentLevel env) w.
Proof. intros Hl. unfold Logger.getLevel. by rewrite (call_found _ _ _ _ Hl). Qed.

(** The part of the level contract the code keeps: each of the five names
    is stored and read back. *)
Lemma setLevel_getLevel_valid (T : LogLevel) (l : nat) (env : Instance) (w : World) :
  loggers w !! l = Some env →
  ∃ w', Logger.setLevel l (level_name T) w = Returns tt w'
        ∧ Logger.getLevel l w' = Returns (level_name T) w'.
Proof.
  intros Hl. eexists. split.
  - apply (setLevel_accepted _ _ _ _ Hl), in_LEVELS_valid.
  - by rewrite (getLevel_current _ _ _ (lookup_store _ _ _)).
Qed.

(** And a name that neither [LEVELS] nor [Object.prototype] holds is
    refused, by a [TypeError] that quotes it and lists the five names,
    with the threshold as it was. *)
Lemma setLevel_unknown_throws (level : string) (l : nat) (env : Instance) (w : World) :
  loggers w !! l = Some env →
  level ∉ valid_names → level ∉ Object_prototype_keys →
  Logger.setLevel l level w
    = Throws (TypeError ("Invalid log level: " +:+ DQUOTE +:+ level +:+ DQUOTE
                           +:+ ". Valid levels: debug, info, warn, error, success")) w
  ∧ Logger.getLevel l w = Returns (currentLevel env) w.
Proof.
  intros Hl Hn Hp. split; [|by apply getLevel_current].
  apply (setLevel_rejected _ _ _ _ Hl).
  unfold in_LEVELS, LEVELS_get. rewrite assoc_LEVELS_None by done.
  by rewrite decide_False.
Qed.

(** But a name [Object.prototype] holds passes the [in] test: it is
    stored, whatever it is. *)
Lemma setLevel_inherited_accepted (level : string) (l : nat) (env : Instance) (w : World) :
  loggers w !! l = Some env →
  level ∈ Object_prototype_keys →
  ∃ w', Logger.setLevel l level w = Returns tt w'
        ∧ Logger.getLevel l w' = Returns level w'.
Proof.
  intros Hl Hin. eexists. split.
  - apply (setLevel_accepted _ _ _ _ Hl). unfold in_LEVELS, LEVELS_get.
    destruct (assoc level LEVELS); [done|]. by rewrite decide_True.
  - by rewrite (getLevel_current _ _ _ (lookup_store _ _ _)).
Qed.

(** C2, at the input where the code departs from it: [toString] is not
    one of the five names, yet [setLevel] returns instead of throwing,
    and [getLevel], which returned [debug] before, returns [toString]. *)
Theorem setLevel_accepts_inherited_key :
  ("toString" ∉ valid_names)
  ∧ Logger.getLevel defaultLogger world0 = Returns "debug" world0
  ∧ (∃ w', Logger.setLevel defaultLogger "toString" world0 = Returns tt w'
           ∧ Logger.getLevel defaultLogger w' = Returns "toString" w').
Proof.
  split; [apply (bool_decide_unpack _); by vm_compute|]. split; [done|].
  eexists. split; [reflexivity|]. by vm_compute.
Qed.

(** C9: a logger constructed with a level outside the five names keeps
    it verbatim, and while it holds it every emit call at every severity
    returns without printing; a [setLevel] with one of the five names
    replaces it, after which a call at that severity prints. *)
Theorem invalid_level_silences (level : string) (options : LoggerOptions) (w : World) :
  level ∉ valid_names →
  opt_level options = Present (Some level) →
  ∃ l w1,
    createLogger (Some options) w = Returns l w1
    ∧ Logger.getLevel l w1 = Returns level w1
    ∧ (∀ S args w' env', loggers w' !! l = Some env' → currentLevel env' = level →
         Logger.emit S l args w' = Returns tt w')
    ∧ (∀ S args, Logger.emit S l args w1 = Returns tt w1)
    ∧ (∀ T, ∃ w2, Logger.setLevel l (level_name T) w1 = Returns tt w2
         ∧ Logger.getLevel l w2 = Returns (level_name T) w2
         ∧ ∀ args message, formatArgs (heap w2) args = Normal message →
             ∃ line, Logger.emit T l args w2
                     = Returns tt (print (console_method T) line w2)).
Proof.
  intros Hn Hopt. unfold createLogger. simpl. rewrite Hopt. simpl.
  set (l := fresh (dom (loggers w))).
  set (env := {| currentLevel := level |}).
  assert (Hsilent : ∀ S args w' env', loggers w' !! l = Some env' →
            currentLevel env' = level → Logger.emit S l args w' = Returns tt w').
  { intros S args w' env' Hl Hc. rewrite emit_log, (call_found _ _ _ _ Hl).
    apply log_filtered, shouldLog_invalid. by rewrite Hc. }
  exists l, (allocate l env w). split; [done|].
  split; [by rewrite (getLevel_current _ _ _ (lookup_allocate _ _ _))|].
  split; [done|]. split.
  { intros S args. apply (Hsilent S args _ env); [apply lookup_allocate|done]. }
  intros T.
  destruct (setLevel_getLevel_valid T l env (allocate l env w) (lookup_allocate _ _ _))
    as (w2 & Hset & Hget).
  exists w2. split; [done|]. split; [done|].
  intros args message Hm.
  rewrite (setLevel_accepted _ _ _ _ (lookup_allocate _ _ _) (in_LEVELS_valid T)) in Hset.
  injection Hset as <-.
  eexists. apply emit_prints with (message := message); [apply lookup_store| |done].
  by rewrite (shouldLog_priority _ T T), bool_decide_eq_true_2.
Qed.

Lemma invalid_level_silences_witness :
  ∃ l w1, createLogger (Some verbose_options) world0 = Returns l w1
          ∧ Logger.getLevel l w1 = Returns "verbose" w1
          ∧ Logger.emit Error l [VString "x"] w1 = Returns tt w1.
Proof.
  destruct (invalid_level_silences "verbose" verbose_options world0) as
    (l & w1 & Hcreate & Hget & _ & Hsilent & _).
  - apply (bool_decide_unpack _). by vm_compute.
  - reflexivity.
  - exists l, w1. split; [exact Hcreate|]. split; [exact Hget|]. apply Hsilent.
Defined.

(** ** Routing *)

Lemma emit_returns_inv (level : LogLevel) (l : nat) (args : list JsValue) (w w' : World) :
  Logger.emit level l args w = Returns tt w' →
  w' = w ∨ ∃ line, w' = print (console_method level) line w.
Proof.
  rewrite emit_log. unfold Logger.call.
  destruct (loggers w !! l) as [env|]; [|done].
  destruct (shouldLog env level) eqn:Hs.
  - rewrite log_passed by done. destruct (formatArgs _ _); [|done].
    intros [= <-]. eauto.
  - rewrite log_filtered by done. intros [= <-]. by left.
Qed.

(** C4: a line an emit call prints goes through the console method of
    its severity: [console.error], on the error stream, for error;
    [console.warn], also off the standard output, for warn;
    [console.log], on the standard output, for debug, info and success. *)
Theorem stream_routing (level : LogLevel) (l : nat) (args : list JsValue) (w w' : World) :
  Logger.emit level l args w = Returns tt w' →
  console w' ≠ console w →
  ∃ line, console w' = console w ++ [(console_method level, line)]
    ∧ match level with
      | Error => console_method level = console_error
                 ∧ stream_of (console_method level) = stderr
      | Warn => console_method level = console_warn
                ∧ stream_of (console_method level) ≠ stdout
      | Debug | Info | Success =>
          console_method level = console_log
          ∧ stream_of (console_method level) = stdout
      end.
Proof.
  intros Hemit Hprinted.
  destruct (emit_returns_inv _ _ _ _ _ Hemit) as [->|[line ->]]; [done|].
  exists line. split; [done|]. by destruct level.
Qed.

Lemma stream_routing_witness :
  let w' := world_of (Logger.emit Success defaultLogger [VString "x"] world0) in
  ∃ line, console w' = console world0 ++ [(console_method Success, line)]
    ∧ console_method Success = console_log
    ∧ stream_of (console_method Success) = stdout.
Proof.
  apply (stream_routing Success defaultLogger [VString "x"] world0).
  - reflexivity.
  - apply print_console.
Defined.

(** ** Children *)

Lemma fresh_logger (w : World) : loggers w !! fresh (dom (loggers w)) = None.
Proof. apply not_elem_of_dom, is_fresh. Qed.

Lemma fresh_logger_ne (l : nat) (env : Instance) (w : World) :
  loggers w !! l = Some env → fresh (dom (loggers w)) ≠ l.
Proof. intros Hl Heq. rewrite <- Heq, fresh_logger in Hl. done. Qed.

(** What [create] returns: the child of the instance itself, or, on a
    logger whose [create] is the bare factory, the child of the defaults. *)
Lemma create_result (p : nat) (env : Instance) (overrides : option LoggerOptions)
    (w : World) :
  loggers w !! p = Some env →
  Logger.create p overrides w
    = Returns (fresh (dom (loggers w)))
        (allocate (fresh (dom (loggers w)))
           (child_of (if decide (p ∈ rebound w) then default_instance else env)
              overrides) w).
Proof.
  intros Hp. unfold Logger.create. rewrite (call_found _ _ _ _ Hp).
  unfold createLogger, child_of. case_decide.
  - do 2 f_equal. destruct overrides as [o|]; [|done]. cbn [default field_of].
    destruct o as [op ot ol oi]. cbn.
    by destruct op as [|[]], ot as [|[]], ol as [|[]], oi as [|[]].
  - cbn [default]. do 2 f_equal.
    destruct overrides as [o|]; [|done]. cbn [spread field_of].
    destruct o as [op ot ol oi]. cbn.
    by destruct op as [|[]], ot as [|[]], ol as [|[]], oi as [|[]].
Qed.

Lemma create_child (p : nat) (env : Instance) (overrides : option LoggerOptions)
    (w : World) :
  loggers w !! p = Some env →
  p ∉ rebound w →
  Logger.create p overrides w
    = Returns (fresh (dom (loggers w)))
        (allocate (fresh (dom (loggers w))) (child_of env overrides) w).
Proof.
  intros Hp Hown. rewrite (create_result _ _ _ _ Hp). by rewrite decide_False.
Qed.

Lemma setLevel_other (i j : nat) (level : string) (w : World) :
  i ≠ j → loggers (world_of (Logger.setLevel i level w)) !! j = loggers w !! j.
Proof.
  intros Hne. unfold Logger.setLevel, Logger.call.
  destruct (loggers w !! i) as [env|]; [|done].
  destruct (negb (in_LEVELS level)); [done|]. by apply lookup_store_ne.
Qed.

(** C5, at the input where the code departs from it: the module
    assigns [createLogger] to the [create] property of the default logger
    it exports, so after [setLevel] has moved the default logger to
    [error], the child its [create] returns starts at [debug], not at the
    current threshold of its parent. *)
Theorem default_logger_child_starts_afresh :
  ∃ w1 c w2,
    Logger.setLevel defaultLogger "error" world0 = Returns tt w1
    ∧ Logger.getLevel defaultLogger w1 = Returns "error" w1
    ∧ Logger.create defaultLogger None w1 = Returns c w2
    ∧ Logger.getLevel c w2 = Returns "debug" w2.
Proof.
  eexists _, _, _. split; [reflexivity|]. split; [by vm_compute|].
  split; [reflexivity|]. by vm_compute.
Qed.

(** X17: [create] on a logger that [createLogger] or [create] made (any
    logger but the exported default) returns a logger under a new
    identity, whose four fields are those the parent holds now, each
    replaced by the override where one is present; no overrides reproduce
    the parent, the parent stays as it was, and a later [setLevel] on
    either of the two, in any world, leaves the other untouched; a child
    made after a [setLevel] on the parent starts at the level that call
    set. *)
Theorem child_configuration (p : nat) (env : Instance)
    (overrides : option LoggerOptions) (w : World) :
  loggers w !! p = Some env →
  p ∉ rebound w →
  ∃ c child w',
    Logger.create p overrides w = Returns c w'
    ∧ c ≠ p ∧ loggers w !! c = None
    ∧ loggers w' !! c = Some child ∧ loggers w' !! p = Some env
    ∧ prefix child = inherited (prefix env) (field_of opt_prefix overrides) EmptyString
    ∧ showTimestamp child
        = inherited (showTimestamp env) (field_of opt_timestamp overrides) false
    ∧ currentLevel child
        = inherited (currentLevel env) (field_of opt_level overrides) "debug"
    ∧ showIcons child = inherited (showIcons env) (field_of opt_icons overrides) true
    ∧ (overrides = None → child = env)
    ∧ (∀ level w1, loggers (world_of (Logger.setLevel p level w1)) !! c = loggers w1 !! c)
    ∧ (∀ level w1, loggers (world_of (Logger.setLevel c level w1)) !! p = loggers w1 !! p)
    ∧ (∀ T, ∃ w1 c1 w2 child1,
         Logger.setLevel p (level_name T) w = Returns tt w1
         ∧ Logger.create p None w1 = Returns c1 w2
         ∧ loggers w2 !! c1 = Some child1
         ∧ currentLevel child1 = level_name T
         ∧ prefix child1 = prefix env
         ∧ showTimestamp child1 = showTimestamp env
         ∧ showIcons child1 = showIcons env).
Proof.
  intros Hp Hown. pose proof (fresh_logger_ne _ _ _ Hp) as Hne.
  eexists _, _, _. split; [by apply create_child|].
  split; [done|]. split; [apply fresh_logger|].
  split; [apply lookup_allocate|].
  split; [by rewrite lookup_allocate_ne|].
  do 4 (split; [done|]).
  split; [intros ->; by destruct env|].
  split; [intros level w1; by apply setLevel_other|].
  split; [intros level w1; by apply setLevel_other|].
  intros T. eexists _, _, _, _.
  split; [apply (setLevel_accepted _ _ _ _ Hp), in_LEVELS_valid|].
  split; [apply create_child; [apply lookup_store|exact Hown]|].
  split; [apply lookup_allocate|]. done.
Qed.

Lemma child_configuration_witness :
  ∃ c child w',
    Logger.create myapp_logger None world1 = Returns c w'
    ∧ c ≠ myapp_logger
    ∧ loggers w' !! c = Some child
    ∧ child = myapp_instance.
Proof.
  destruct (child_configuration myapp_logger myapp_instance None world1)
    as (c & child & w' & Hcreate & Hne & _ & Hc & _ & _ & _ & _ & _ & Hsame & _).
  - reflexivity.
  - apply (bool_decide_unpack _). by vm_compute.
  - exists c, child, w'. split; [exact Hcreate|]. split; [exact Hne|].
    split; [exact Hc|]. apply Hsame. reflexivity.
Defined.

(** ** Frame *)

Lemma emit_loggers (level : LogLevel) (l : nat) (args : list JsValue) (w : World) :
  loggers (world_of (Logger.emit level l args w)) = loggers w.
Proof.
  rewrite emit_log. unfold Logger.call. destruct (loggers w !! l) as [env|]; [|done].
  unfold log. destruct (negb _); [done|]. by destruct (formatArgs _ _).
Qed.

Lemma perform_world {A} (o : Outcome A) : (outcome_of o).1 = world_of o.
Proof. by destruct o. Qed.

(** C10: whatever operation is performed on whatever logger, an
    instance keeps its prefix, its timestamp flag and its icon flag; and
    if its threshold changed, the operation was a [setLevel] on that very
    instance, it returned, and the threshold is the level it was given. *)
Theorem configuration_frame (op : Operation) (j l : nat) (env : Instance) (w : World) :
  loggers w !! l = Some env →
  ∃ env', loggers (perform op j w).1 !! l = Some env'
    ∧ prefix env' = prefix env
    ∧ showTimestamp env' = showTimestamp env
    ∧ showIcons env' = showIcons env
    ∧ (currentLevel env' ≠ currentLevel env →
         j = l ∧ (perform op j w).2 = true ∧ op = OpSetLevel (currentLevel env')).
Proof.
  intros Hl. destruct op as [level args| |overrides|level]; unfold perform;
    rewrite perform_world.
  - rewrite emit_loggers. exists env. naive_solver.
  - unfold Logger.getLevel, Logger.call. exists env.
    destruct (loggers w !! j); simpl; naive_solver.
  - destruct (loggers w !! j) as [envj|] eqn:Hj.
    + rewrite (create_result _ _ _ _ Hj). simpl. exists env.
      rewrite lookup_insert_ne by (by apply (fresh_logger_ne _ env)). naive_solver.
    + unfold Logger.create, Logger.call. rewrite Hj. exists env. simpl. naive_solver.
  - destruct (decide (j = l)) as [->|Hne].
    + destruct (in_LEVELS level) eqn:Hin.
      * rewrite (setLevel_accepted _ _ _ _ Hl Hin). simpl.
        rewrite lookup_insert_eq. eexists. split; [done|]. simpl.
        repeat split; try done.
      * rewrite (setLevel_rejected _ _ _ _ Hl Hin). simpl. exists env. naive_solver.
    + rewrite setLevel_other by done. exists env. naive_solver.
Qed.

Lemma configuration_frame_witness :
  ∃ env', loggers (perform (OpSetLevel "warn") defaultLogger world0).1 !! defaultLogger
          = Some env'
    ∧ prefix env' = EmptyString ∧ showTimestamp env' = false ∧ showIcons env' = true.
Proof.
  destruct (configuration_frame (OpSetLevel "warn") defaultLogger defaultLogger
              default_instance world0 eq_refl)
    as (env' & Hl & Hp & Ht & Hi & _).
  exists env'. split; [exact Hl|]. split; [exact Hp|]. split; [exact Ht|exact Hi].
Defined.

(** ** Rendering *)

Lemma formatArgs_texts (h : gmap nat JsObject) (args : list JsValue) (texts : list string) :
  Forall2 (λ arg text, arg_text h arg = Normal text) args texts →
  formatArgs h args = Normal (join " " texts).
Proof.
  intros Hall. unfold formatArgs.
  assert (Hmap : map_args (λ arg, match arg with
                                  | VString s => Normal s
                                  | _ => safeStringify h arg
                                  end) args = Normal texts).
  { induction Hall as [|arg text args texts Harg _ IH]; [done|].
    simpl. unfold arg_text in Harg. rewrite Harg. simpl. by rewrite IH. }
  by rewrite Hmap.
Qed.

(** C7: the line an emit call prints is the space-joined sequence icon
    (when icons are on), timestamp (when the timestamp is on), prefix
    (when it is not empty), level tag, message; the tag is the bracketed
    upper-case name in the color of the severity, the message is the
    texts of the arguments joined by single spaces.  On a logger with
    prefix [MyApp], no timestamp, icons and threshold debug, [info] on
    the string x prints the one line: icon, colored prefix, tag, x. *)
Theorem line_layout (level : LogLevel) (l : nat) (env : Instance)
    (args : list JsValue) (texts : list string) (w : World) :
  loggers w !! l = Some env →
  shouldLog env level = true →
  Forall2 (λ arg text, arg_text (heap w) arg = Normal text) args texts →
  Logger.emit level l args w
    = Returns tt (print (console_method level)
                    (spec_line env level (clock w) (join " " texts)) w)
  ∧ level_tag level
    = LEVEL_COLORS level +:+ "["
        +:+ match level with
            | Debug => "DEBUG"
            | Info => "INFO"
            | Warn => "WARN"
            | Error => "ERROR"
            | Success => "SUCCESS"
            end +:+ "]" +:+ COLORS.reset
  ∧ (∃ l1 w1, createLogger (Some myapp_options) world0 = Returns l1 w1
       ∧ console (world_of (Logger.info l1 [VString "x"] w1))
         = [(console_log,
             "ℹ️" +:+ " " +:+ COLORS.cyan +:+ "[MyApp]" +:+ COLORS.reset
               +:+ " " +:+ COLORS.cyan +:+ "[INFO]" +:+ COLORS.reset
               +:+ " " +:+ "x")]).
Proof.
  intros Hl Hs Hall. split; [|split].
  - apply emit_prints; [done..|]. by apply formatArgs_texts.
  - by destruct level.
  - eexists _, _. split; [reflexivity|]. by vm_compute.
Qed.

Lemma line_layout_witness :
  Logger.emit Warn defaultLogger [VString "disk"; VNumber 93; VNull] world0
    = Returns tt (print console_warn
                    ("⚠️ " +:+ COLORS.yellow +:+ "[WARN]" +:+ COLORS.reset
                       +:+ " disk 93 null") world0).
Proof.
  apply (line_layout Warn defaultLogger default_instance
           [VString "disk"; VNumber 93; VNull] ["disk"; "93"; "null"] world0).
  - reflexivity.
  - reflexivity.
  - repeat constructor.
Defined.


(** ** Serialization failures *)

(** In the generic branch a failure is caught: an object whose getter
    throws is rendered by [String]. *)
Lemma generic_branch_falls_back :
  safeStringify getter_heap (VObject 0) = Normal "[object Object]".
Proof. by vm_compute. Qed.

(** C3, at inputs where the code departs from it: the branches for Set,
    Map, Error and Date call the runtime outside the [try], so a Set or a
    Map holding a big integer, an Error that is its own custom property
    and an invalid Date each make the emit call throw, printing nothing. *)
Theorem special_branches_throw :
  let w := initial_world hostile_heap sample_clock in
  Logger.info defaultLogger [VObject 0] w
    = Throws (TypeError "Do not know how to serialize a BigInt") w
  ∧ Logger.info defaultLogger [VObject 1] w
    = Throws (TypeError "Do not know how to serialize a BigInt") w
  ∧ Logger.error defaultLogger [VObject 2] w
    = Throws (TypeError "Converting circular structure to JSON") w
  ∧ Logger.info defaultLogger [VObject 3] w
    = Throws (RangeError "Invalid time value") w.
Proof. repeat split; by vm_compute. Qed.

(** C1, at an input where the code departs from it: the default logger
    holds the threshold debug and info has priority 1, at or above it,
    yet info on a Set holding a big integer produces no output: the
    call throws out of the serializer and the console stays empty (the
    defect of C3, met on the way to the output). *)
Theorem passing_call_prints_nothing :
  let w := initial_world hostile_heap sample_clock in
  Logger.getLevel defaultLogger w = Returns "debug" w
  ∧ (priority Debug ≤ priority Info)%Z
  ∧ shouldLog default_instance Info = true
  ∧ Logger.info defaultLogger [VObject 0] w
    = Throws (TypeError "Do not know how to serialize a BigInt") w
  ∧ console w = [].
Proof. repeat split; first [by vm_compute | done]. Qed.

(** ** Texts *)

Lemma append_cons (x : ascii) (a b : string) : String x a +:+ b = String x (a +:+ b).
Proof. reflexivity. Qed.

Lemma append_assoc (a b c : string) : (a +:+ b) +:+ c = a +:+ b +:+ c.
Proof. induction a as [|x a IH]; [done|]. by rewrite !append_cons, IH. Qed.

Lemma append_nil_r (a : string) : a +:+ EmptyString = a.
Proof. induction a as [|x a IH]; [done|]. by rewrite append_cons, IH. Qed.

Lemma includes_refl (s : string) : includes s s.
Proof. exists EmptyString, EmptyString. by rewrite append_nil_r. Qed.

Lemma includes_app_l (a t s : string) : includes t s → includes (a +:+ t) s.
Proof. intros (b & c & ->). exists (a +:+ b), c. by rewrite append_assoc. Qed.

Lemma includes_app_r (t b s : string) : includes t s → includes (t +:+ b) s.
Proof. intros (x & y & ->). exists x, (y +:+ b). by rewrite !append_assoc. Qed.


Lemma includes_join (sep : string) (parts : list string) (p : string) :
  p ∈ parts → includes (join sep parts) p.
Proof.
  induction parts as [|q parts IH]; [by intros ?%elem_of_nil|].
  intros [->|Hin]%elem_of_cons.
  - destruct parts; [apply includes_refl|]. apply includes_app_r, includes_refl.
  - destruct parts as [|q' parts]; [by apply elem_of_nil in Hin|].
    change (join sep (q :: q' :: parts)) with (q +:+ sep +:+ join sep (q' :: parts)).
    by apply includes_app_l, includes_app_l, IH.
Qed.

Lemma includes_wrap (open close stepback indent : string) (members : list string)
    (m : string) :
  m ∈ members → includes (wrap open close stepback indent members) m.
Proof.
  intros Hin. unfold wrap. destruct members as [|m0 members]; [by apply elem_of_nil in Hin|].
  do 3 apply includes_app_l. apply includes_app_r. by apply includes_join.
Qed.

Lemma marker_text : marker = DQUOTE +:+ "[Circular]" +:+ DQUOTE.
Proof. reflexivity. Qed.


(** ** Sets of references *)

Lemma size_enter (X stack : gset nat) (r : nat) :
  r ∈ X → r ∉ stack → size (X ∖ ({[r]} ∪ stack)) < size (X ∖ stack).
Proof.
  intros HX Hs. apply subset_size. split.
  - apply difference_mono_l, union_subseteq_r.
  - intros Hsub. specialize (Hsub r).
    rewrite !elem_of_difference, elem_of_union, elem_of_singleton in Hsub.
    destruct Hsub as [_ Hnot]; [done|]. apply Hnot. by left.
Qed.

Lemma size_grow (X seen seen' : gset nat) :
  seen ⊆ seen' → size (X ∖ seen') ≤ size (X ∖ seen).
Proof. intros Hsub. by apply subseteq_size, difference_mono_l. Qed.

Lemma size_all (X : gset nat) : size (X ∖ ∅) ≤ size X.
Proof. by apply subseteq_size, subseteq_difference_l. Qed.

(** ** The circular guard *)

Lemma imap_data (name : nat → string) (elems : list JsValue) :
  forallb (λ kp, is_data kp.2) (imap (λ i v, (name i, Data v)) elems) = true.
Proof.
  revert name. induction elems as [|v elems IH]; intros name; [done|].
  simpl. apply (IH (name ∘ S)).
Qed.

Lemma index_props_data (elems : list JsValue) :
  forallb (λ kp, is_data kp.2) (index_props elems) = true.
Proof. apply imap_data. Qed.


Lemma object_members_elem (items : list (string * option string)) (k text : string) :
  (k, Some text) ∈ items → (QuoteJSONString k +:+ ": " +:+ text) ∈ object_members items.
Proof.
  intros Hin. unfold object_members. apply list_elem_of_omap.
  exists (k, Some text). by split.
Qed.


Section circular_guard.
Variable h : gmap nat JsObject.

Lemma apply_toJSON_object (r : nat) :
  is_date h r = false → apply_toJSON h (VObject r) = VObject r.
Proof.
  unfold is_date, apply_toJSON. by destruct (h !! r) as [[]|].
Qed.

(** A reference already in the set is replaced by the marker string,
    and its object is not entered: no recursive call is made. *)
Lemma ser_revisited (fuel : nat) (stack : gset nat) (indent : string)
    (seen : gset nat) (key : string) (r : nat) :
  r ∈ seen → is_date h r = false →
  SerializeJSONProperty circular_replacer h (S fuel) stack indent seen key
    (Data (VObject r))
  = Ret (seen, Some marker).
Proof.
  intros Hseen Hdate. cbn [SerializeJSONProperty].
  rewrite apply_toJSON_object by done. unfold circular_replacer.
  by rewrite decide_True.
Qed.

(** A reference met for the first time is added to the set and its
    object is serialized. *)
Lemma ser_enter (fuel : nat) (stack : gset nat) (indent : string)
    (seen : gset nat) (key : string) (r : nat) :
  r ∉ seen → stack ⊆ seen → is_date h r = false →
  SerializeJSONProperty circular_replacer h (S fuel) stack indent seen key
    (Data (VObject r)) =
    match get_object h r with
    | OArray elems =>
        sbind (serialize_props
                 (SerializeJSONProperty circular_replacer h fuel ({[r]} ∪ stack)
                    (indent +:+ "  "))
                 ({[r]} ∪ seen) (index_props elems)) (λ '(st2, items),
        Ret (st2, Some (wrap "[" "]" indent (indent +:+ "  ") (array_members items))))
    | o =>
        sbind (serialize_props
                 (SerializeJSONProperty circular_replacer h fuel ({[r]} ∪ stack)
                    (indent +:+ "  "))
                 ({[r]} ∪ seen) (enumerable_props o)) (λ '(st2, items),
        Ret (st2, Some (wrap "{" "}" indent (indent +:+ "  ") (object_members items))))
    end.
Proof.
  intros Hseen Hstack Hdate. cbn [SerializeJSONProperty].
  rewrite apply_toJSON_object by done. unfold circular_replacer.
  rewrite decide_False by done. rewrite decide_False by set_solver. done.
Qed.

Lemma serialize_props_total f (stack : gset nat) (n : nat) :
  serializes h f stack n →
  ∀ props seen,
    forallb (λ kp, is_data kp.2) props = true →
    stack ⊆ seen → size (dom h ∖ seen) < n →
    ∃ seen' items, serialize_props f seen props = Ret (seen', items) ∧ seen ⊆ seen'
      ∧ (∀ k r, (k, Data (VObject r)) ∈ props → r ∈ seen → is_date h r = false →
           (k, Some marker) ∈ items).
Proof.
  intros Hf. induction props as [|[k p] props IH]; intros seen Hdata Hstack Hsize.
  - exists seen, []. split; [done|]. split; [done|]. by intros k r ?%elem_of_nil.
  - simpl in Hdata. apply andb_prop in Hdata as [Hp Hdata].
    destruct p as [v|]; [|done].
    destruct (Hf seen k v Hstack Hsize) as (seen1 & o & Hser & Hsub & Hmark).
    destruct (IH seen1 Hdata) as (seen2 & items & Hrest & Hsub2 & Hmarks).
    { by etrans. }
    { eapply Nat.le_lt_trans; [by apply size_grow|exact Hsize]. }
    exists seen2, ((k, o) :: items). cbn [serialize_props]. rewrite Hser. cbn [sbind].
    rewrite Hrest. split; [done|]. split; [set_solver|].
    intros k' r [Heq|Hin]%elem_of_cons Hr Hdate.
    + injection Heq as -> <-. rewrite (Hmark r eq_refl Hr Hdate). by left.
    + right. apply (Hmarks k' r Hin); [set_solver|done].
Qed.

Hypothesis Hplain : plain_data h.

Lemma ser_total (fuel : nat) (stack : gset nat) (indent : string) :
  serializes h (SerializeJSONProperty circular_replacer h fuel stack indent) stack fuel.
Proof.
  revert stack indent.
  induction fuel as [|fuel IH]; intros stack indent seen key v Hstack Hsize; [lia|].
  destruct v as [| |b|n|n|s|d|r];
    try (cbn; eexists _, _; split; [reflexivity|]; split; [done|]; by intros r0 [=]).
  destruct (is_date h r) eqn:Hdate.
  { assert (∀ o : option string, ∀ r0, VObject r = VObject r0 → r0 ∈ seen →
              is_date h r0 = false → o = Some marker) as Hnomark.
    { intros o r0 [= <-] _ Hd. congruence. }
    unfold is_date in Hdate. cbn [SerializeJSONProperty apply_toJSON].
    destruct (h !! r) as [[]|]; try done.
    destruct iso; cbn; eauto 6. }
  destruct (decide (r ∈ seen)) as [Hseen|Hseen].
  { exists seen, (Some marker). by rewrite ser_revisited. }
  rewrite ser_enter by done.
  assert (Hprops : ∀ props wrapper,
    (h !! r = None → props = []) →
    forallb (λ kp, is_data kp.2) props = true →
    ∃ seen' o,
      sbind (serialize_props
               (SerializeJSONProperty circular_replacer h fuel ({[r]} ∪ stack)
                  (indent +:+ "  "))
               ({[r]} ∪ seen) props) (λ '(st2, items), Ret (st2, Some (wrapper items)))
      = Ret (seen', o) ∧ seen ⊆ seen'
      ∧ (∀ r0, VObject r = VObject r0 → r0 ∈ seen → is_date h r0 = false →
           o = Some marker)).
  { intros props wrapper Hnone Hdata.
    destruct (h !! r) as [o|] eqn:Hr.
    - destruct (serialize_props_total _ _ _ (IH ({[r]} ∪ stack) (indent +:+ "  "))
                  props ({[r]} ∪ seen) Hdata) as (seen' & items & -> & Hsub & _).
      { by apply union_mono_l. }
      { apply elem_of_dom_2 in Hr. pose proof (size_enter _ _ _ Hr Hseen). lia. }
      exists seen', (Some (wrapper items)). split; [done|]. split; [set_solver|].
      by intros r0 [= <-] Hr0.
    - rewrite (Hnone eq_refl). exists ({[r]} ∪ seen), (Some (wrapper [])).
      split; [done|]. split; [set_solver|]. by intros r0 [= <-] Hr0. }
  unfold get_object. destruct (h !! r) as [o|] eqn:Hr; cbn [default].
  - pose proof (Hplain r o Hr) as Hdata. cbn beta in Hdata.
    destruct o; try (apply Hprops; [done|exact Hdata]).
    apply Hprops; [done|apply index_props_data].
  - by apply Hprops.
Qed.
End circular_guard.

(** One step of [SerializeJSONProperty]. *)
Lemma SerializeJSONProperty_step {St} (replacer : St → string → JsValue → St * JsValue)
    (h : gmap nat JsObject) (fuel : nat) (stack : gset nat) (indent : string)
    (st : St) (key : string) (v0 : JsValue) :
  SerializeJSONProperty replacer h (S fuel) stack indent st key (Data v0) =
    let '(st1, v) := replacer st key (apply_toJSON h v0) in
    match v with
    | VNull => Ret (st1, Some "null")
    | VBoolean b => Ret (st1, Some (if b then "true" else "false"))
    | VString s => Ret (st1, Some (QuoteJSONString s))
    | VNumber n => Ret (st1, Some (Z_toString n))
    | VBigInt _ => Raise (TypeError "Do not know how to serialize a BigInt")
    | VUndefined | VSymbol _ => Ret (st1, None)
    | VObject r =>
        if decide (r ∈ stack)
        then Raise (TypeError "Converting circular structure to JSON")
        else
          match get_object h r with
          | OArray elems =>
              sbind (serialize_props
                       (SerializeJSONProperty replacer h fuel ({[r]} ∪ stack)
                          (indent +:+ "  "))
                       st1 (index_props elems)) (λ '(st2, items),
              Ret (st2, Some (wrap "[" "]" indent (indent +:+ "  ")
                                (array_members items))))
          | o =>
              sbind (serialize_props
                       (SerializeJSONProperty replacer h fuel ({[r]} ∪ stack)
                          (indent +:+ "  "))
                       st1 (enumerable_props o)) (λ '(st2, items),
              Ret (st2, Some (wrap "{" "}" indent (indent +:+ "  ")
                                (object_members items))))
          end
    end.
Proof. reflexivity. Qed.

(** The tracking set only grows. *)
Lemma circular_replacer_mono (seen seen' : gset nat) (key : string) (v v' : JsValue) :
  circular_replacer seen key v = (seen', v') → seen ⊆ seen'.
Proof.
  unfold circular_replacer. destruct v; try (by intros [= <- _]).
  case_decide; intros [= <- _]; [done|apply union_subseteq_r].
Qed.

Lemma serialize_props_mono
    (f : gset nat → string → Property → Step (gset nat * option string)) :
  (∀ st k p st' o, f st k p = Ret (st', o) → st ⊆ st') →
  ∀ props st st' items, serialize_props f st props = Ret (st', items) → st ⊆ st'.
Proof.
  intros Hf. induction props as [|[k p] props IH]; intros st st' items.
  { by intros [= <- _]. }
  cbn [serialize_props].
  destruct (f st k p) as [[st1 o]| |] eqn:Hhead; [|done..]. cbn [sbind].
  destruct (serialize_props f st1 props) as [[st2 items']| |] eqn:Hrest; [|done..].
  intros [= <- _]. etrans; [by eapply Hf|by eapply IH].
Qed.

Lemma ser_mono (h : gmap nat JsObject) (fuel : nat) :
  ∀ stack indent seen key p seen' o,
    SerializeJSONProperty circular_replacer h fuel stack indent seen key p
      = Ret (seen', o) →
    seen ⊆ seen'.
Proof.
  induction fuel as [|fuel IH]; intros stack indent seen key p seen' o; [done|].
  destruct p as [v0|]; [|done]. rewrite SerializeJSONProperty_step.
  destruct (circular_replacer seen key (apply_toJSON h v0)) as [st1 v] eqn:Hrep.
  apply circular_replacer_mono in Hrep.
  destruct v as [| |b|n|n|s|d|r]; try (by intros [= <- _]).
  case_decide; [done|].
  assert (Hprops : ∀ props (wrapper : list (string * option string) → string),
    sbind (serialize_props
             (SerializeJSONProperty circular_replacer h fuel ({[r]} ∪ stack)
                (indent +:+ "  ")) st1 props)
      (λ '(st2, items), Ret (st2, Some (wrapper items))) = Ret (seen', o) →
    seen ⊆ seen').
  { intros props wrapper.
    destruct (serialize_props _ st1 props) as [[st2 items]| |] eqn:Hser; [|done..].
    intros [= <- _]. etrans; [exact Hrep|].
    eapply serialize_props_mono; [|exact Hser]. intros st k p. apply IH. }
  destruct (get_object h r); apply Hprops.
Qed.

Lemma plain_or_array_not_date (h : gmap nat JsObject) (r : nat) :
  plain_or_array h r → is_date h r = false.
Proof. unfold plain_or_array, is_date. by destruct (h !! r) as [[]|]. Qed.

Lemma size_without (h : gmap nat JsObject) (r : nat) (o : JsObject) :
  h !! r = Some o → size (dom h ∖ ({[r]} ∪ ∅)) < size h.
Proof.
  intros Hr. apply elem_of_dom_2 in Hr.
  pose proof (size_enter (dom h) ∅ r Hr (not_elem_of_empty r)) as Hlt.
  pose proof (size_all (dom h)) as Hle.
  rewrite <- (size_dom (D := gset nat) h). lia.
Qed.



(** ** The guarded rendering *)













(** ** The depth budget is enough

    An object is entered only while it is not on the stack, so the depth
    of the recursion is at most the number of objects of the heap. *)

Section budget.
Context {St : Type}.
Variable replacer : St → string → JsValue → St * JsValue.
Variable h : gmap nat JsObject.

Lemma serialize_props_budget
    (f : St → string → Property → Step (St * option string)) :
  (∀ st k p, f st k p ≠ OutOfFuel) →
  ∀ props st, serialize_props f st props ≠ OutOfFuel.
Proof.
  intros Hf. induction props as [|[k p] props IH]; intros st; [done|].
  cbn [serialize_props]. specialize (Hf st k p).
  destruct (f st k p) as [[st1 o]| |]; [|done..]. cbn [sbind].
  specialize (IH st1). by destruct (serialize_props f st1 props) as [[st2 items]| |].
Qed.

Lemma SerializeJSONProperty_budget (fuel : nat) :
  ∀ stack indent st key p,
    size (dom h ∖ stack) < fuel →
    SerializeJSONProperty replacer h fuel stack indent st key p ≠ OutOfFuel.
Proof.
  induction fuel as [|fuel IH]; intros stack indent st key p Hsize; [lia|].
  cbn [SerializeJSONProperty]. destruct p as [v0|]; [|done].
  destruct (replacer st key (apply_toJSON h v0)) as [st1 v].
  destruct v as [| |b|n|n|s|d|r]; try done.
  case_decide as Hstack; [done|].
  assert (Hprops : ∀ props (wrapper : list (string * option string) → string),
    (h !! r = None → props = []) →
    sbind (serialize_props (SerializeJSONProperty replacer h fuel ({[r]} ∪ stack)
                              (indent +:+ "  ")) st1 props)
      (λ '(st2, items), Ret (st2, Some (wrapper items))) ≠ OutOfFuel).
  { intros props wrapper Hnone. destruct (h !! r) as [o|] eqn:Hr.
    - assert (Hsub : size (dom h ∖ ({[r]} ∪ stack)) < fuel).
      { apply elem_of_dom_2 in Hr. pose proof (size_enter _ _ _ Hr Hstack). lia. }
      pose proof (serialize_props_budget _
        (λ st k p, IH ({[r]} ∪ stack) (indent +:+ "  ") st k p Hsub) props st1) as Hp.
      by destruct (serialize_props _ st1 props) as [[st2 items]| |].
    - by rewrite (Hnone eq_refl). }
  unfold get_object. destruct (h !! r) as [o|] eqn:Hr; cbn [default from_option id].
  - destruct o; by apply Hprops.
  - by apply Hprops.
Qed.
End budget.

Lemma smap_budget {A B} (f : A → Step B) (l : list A) :
  (∀ a, f a ≠ OutOfFuel) → smap f l ≠ OutOfFuel.
Proof.
  intros Hf. induction l as [|a l IH]; [done|].
  cbn [smap]. specialize (Hf a). destruct (f a); [|done..]. cbn [sbind].
  by destruct (smap f l).
Qed.

Lemma ToString_budget (h : gmap nat JsObject) (fuel : nat) :
  ∀ stack v, size (dom h ∖ stack) < fuel → ToString h fuel stack v ≠ OutOfFuel.
Proof.
  induction fuel as [|fuel IH]; intros stack v Hsize; [lia|].
  cbn [ToString]. destruct v as [| |b|n|n|s|d|r]; try done.
  unfold get_object. destruct (h !! r) as [o|] eqn:Hr; cbn [default from_option id]; [|done].
  destruct o as [|elems| | | | |]; try done.
  case_decide as Hstack; [done|].
  assert (Hsub : size (dom h ∖ ({[r]} ∪ stack)) < fuel).
  { apply elem_of_dom_2 in Hr. pose proof (size_enter _ _ _ Hr Hstack). lia. }
  match goal with
  | |- sbind (smap ?f elems) _ ≠ _ =>
      assert (Hparts : smap f elems ≠ OutOfFuel);
      [apply smap_budget; intros e; destruct e; try done; by apply IH|];
      by destruct (smap f elems)
  end.
Qed.

(** [JSON.stringify] and [String] never exhaust the budget they are
    started with. *)
Lemma JSON_stringify_budget {St} (replacer : St → string → JsValue → St * JsValue)
    (h : gmap nat JsObject) (init : St) (value : JsValue) :
  SerializeJSONProperty replacer h (S (size h)) ∅ EmptyString init EmptyString (Data value)
    ≠ OutOfFuel.
Proof.
  apply SerializeJSONProperty_budget. rewrite <- (size_dom (D := gset nat) h).
  apply Nat.lt_succ_r, size_all.
Qed.

Lemma js_String_budget (h : gmap nat JsObject) (value : JsValue) :
  ToString h (S (size h)) ∅ value ≠ OutOfFuel.
Proof.
  apply ToString_budget. rewrite <- (size_dom (D := gset nat) h).
  apply Nat.lt_succ_r, size_all.
Qed.

(** * Further properties *)

(** ** Level control, continued *)

Lemma valid_name_level (level : string) :
  level ∈ valid_names → ∃ T, level = level_name T.
Proof. unfold valid_names. intros (T & -> & _)%list_elem_of_fmap. eauto. Qed.

Lemma in_LEVELS_accepts (level : string) :
  level ∈ valid_names ∨ level ∈ Object_prototype_keys → in_LEVELS level = true.
Proof.
  intros [(T & ->)%valid_name_level|Hin]; [apply in_LEVELS_valid|].
  unfold in_LEVELS, LEVELS_get. destruct (assoc level LEVELS); [done|].
  by rewrite decide_True.
Qed.

Lemma in_LEVELS_rejects (level : string) :
  level ∉ valid_names → level ∉ Object_prototype_keys → in_LEVELS level = false.
Proof.
  intros Hn Hp. unfold in_LEVELS, LEVELS_get.
  rewrite assoc_LEVELS_None by done. by rewrite decide_False.
Qed.

(** X1: [setLevel] stores exactly the names that [LEVELS] holds or
    inherits, touching nothing but the threshold of that logger: its
    prefix and flags, every other logger, the console, the heap and the
    clock are as before; any other name is refused by a [TypeError] whose
    message quotes the name and lists the five levels, and the world
    stays as it was. *)
Theorem setLevel_acceptance (level : string) (l : nat) (env : Instance) (w : World) :
  loggers w !! l = Some env →
  (level ∈ valid_names ∨ level ∈ Object_prototype_keys →
     ∃ w', Logger.setLevel l level w = Returns tt w'
       ∧ Logger.getLevel l w' = Returns level w'
       ∧ loggers w' !! l
         = Some {| currentLevel := level; prefix := prefix env;
                   showTimestamp := showTimestamp env; showIcons := showIcons env |}
       ∧ (∀ j, j ≠ l → loggers w' !! j = loggers w !! j)
       ∧ heap w' = heap w ∧ clock w' = clock w ∧ console w' = console w
       ∧ rebound w' = rebound w)
  ∧ (level ∉ valid_names → level ∉ Object_prototype_keys →
     ∃ message, Logger.setLevel l level w = Throws (TypeError message) w
       ∧ includes message (DQUOTE +:+ level +:+ DQUOTE)
       ∧ Forall (includes message) valid_names
       ∧ Logger.getLevel l w = Returns (currentLevel env) w).
Proof.
  intros Hl. split.
  - intros Hin%in_LEVELS_accepts. eexists.
    split; [by apply (setLevel_accepted _ env)|].
    split; [by rewrite (getLevel_current _ _ _ (lookup_store _ _ _))|].
    split; [apply lookup_store|].
    split; [|done]. intros j Hj. by apply lookup_store_ne.
  - intros Hn Hp. exists (invalid_level_message level).
    split; [by apply (setLevel_rejected _ env), in_LEVELS_rejects|].
    split.
    { unfold invalid_level_message. apply includes_app_l.
      exists EmptyString, (". Valid levels: " +:+ join ", " (LEVELS.*1)).
      by rewrite !append_assoc. }
    split; [|by apply getLevel_current].
    assert (Hlist : ∀ name, includes "debug, info, warn, error, success" name →
                      includes (invalid_level_message level) name).
    { intros name Hname. unfold invalid_level_message.
      do 5 apply includes_app_l. exact Hname. }
    repeat constructor; apply Hlist.
    + by exists EmptyString, ", info, warn, error, success".
    + by exists "debug, ", ", warn, error, success".
    + by exists "debug, info, ", ", error, success".
    + by exists "debug, info, warn, ", ", success".
    + by exists "debug, info, warn, error, ", EmptyString.
Qed.

Lemma setLevel_acceptance_witness :
  (∃ w', Logger.setLevel defaultLogger "valueOf" world0 = Returns tt w'
         ∧ Logger.getLevel defaultLogger w' = Returns "valueOf" w')
  ∧ (∃ message, Logger.setLevel defaultLogger "verbose" world0
                = Throws (TypeError message) world0
       ∧ includes message (DQUOTE +:+ "verbose" +:+ DQUOTE)).
Proof.
  destruct (setLevel_acceptance "valueOf" defaultLogger default_instance world0 eq_refl)
    as [Haccept _].
  destruct (setLevel_acceptance "verbose" defaultLogger default_instance world0 eq_refl)
    as [_ Hreject].
  split.
  - destruct Haccept as (w' & Hset & Hget & _).
    + right. apply (bool_decide_unpack _). by vm_compute.
    + exists w'. split; [exact Hset|exact Hget].
  - destruct Hreject as (message & Hset & Hquote & _).
    + apply (bool_decide_unpack _). by vm_compute.
    + apply (bool_decide_unpack _). by vm_compute.
    + exists message. split; [exact Hset|exact Hquote].
Defined.

(** X2: of two accepted [setLevel] calls in a row on one logger only
    the second counts: the world is the one the second call alone
    leaves. *)
Theorem setLevel_overrides (a b : string) (l : nat) (w w1 w2 : World) :
  Logger.setLevel l a w = Returns tt w1 →
  Logger.setLevel l b w1 = Returns tt w2 →
  Logger.setLevel l b w = Returns tt w2.
Proof.
  unfold Logger.setLevel, Logger.call.
  destruct (loggers w !! l) as [env|] eqn:Hl; [|done].
  destruct (in_LEVELS a); [|done]. cbn [negb]. intros [= <-].
  cbn [store loggers]. rewrite lookup_insert_eq.
  destruct (in_LEVELS b); [|done]. cbn [negb]. intros [= <-].
  unfold store. cbn. by rewrite insert_insert_eq.
Qed.

Lemma setLevel_overrides_witness :
  Logger.setLevel defaultLogger "error" world0
  = Returns tt (world_of (Logger.setLevel defaultLogger "error"
                            (world_of (Logger.setLevel defaultLogger "warn" world0)))).
Proof.
  apply (setLevel_overrides "warn" "error" defaultLogger world0
           (world_of (Logger.setLevel defaultLogger "warn" world0))).
  - reflexivity.
  - reflexivity.
Defined.

(** X3: error and success filter alike: a logger prints the one iff it
    prints the other, whatever threshold it holds, and the thresholds
    [error] and [success] let through the same severities. *)
Theorem error_success_alike (env env1 env2 : Instance) (S : LogLevel) :
  currentLevel env1 = "error" →
  currentLevel env2 = "success" →
  shouldLog env Error = shouldLog env Success
  ∧ shouldLog env1 S = shouldLog env2 S
  ∧ shouldLog env1 Success = true ∧ shouldLog env2 Error = true.
Proof.
  intros H1 H2. unfold shouldLog. rewrite H1, H2. split; [done|]. by destruct S.
Qed.

Lemma error_success_alike_witness :
  shouldLog default_instance Error = shouldLog default_instance Success
  ∧ shouldLog {| currentLevel := "error"; prefix := EmptyString;
                 showTimestamp := false; showIcons := true |} Warn
    = shouldLog {| currentLevel := "success"; prefix := EmptyString;
                   showTimestamp := false; showIcons := true |} Warn.
Proof.
  destruct (error_success_alike default_instance
              {| currentLevel := "error"; prefix := EmptyString;
                 showTimestamp := false; showIcons := true |}
              {| currentLevel := "success"; prefix := EmptyString;
                 showTimestamp := false; showIcons := true |} Warn eq_refl eq_refl)
    as (Hsame & Hthreshold & _).
  split; [exact Hsame|exact Hthreshold].
Defined.

(** ** Emit calls, continued *)

(** X4: an emit call either returns, having changed nothing or only
    appended one line to the console through the method of its severity,
    or throws, having changed nothing at all; heap, clock and loggers are
    never touched. *)
Theorem emit_effects (level : LogLevel) (l : nat) (args : list JsValue) (w : World) :
  match Logger.emit level l args w with
  | Returns _ w' =>
      heap w' = heap w ∧ clock w' = clock w ∧ loggers w' = loggers w
      ∧ (console w' = console w
         ∨ ∃ line, console w' = console w ++ [(console_method level, line)])
  | Throws e w' =>
      w' = w
      ∧ (loggers w !! l = None ∨ formatArgs (heap w) args = Abrupt e)
  end.
Proof.
  rewrite emit_log. unfold Logger.call.
  destruct (loggers w !! l) as [env|]; [|by split; [|left]].
  unfold log. destruct (negb (shouldLog env level)); [by repeat split; try left|].
  destruct (formatArgs (heap w) args) as [message|e].
  - repeat split; try done. right. by eexists.
  - split; [done|]. by right.
Qed.

Lemma prefix_join (sep : string) (parts : list string) (last : string) :
  ∃ before, join sep (parts ++ [last; EmptyString]) = before +:+ last +:+ sep.
Proof.
  induction parts as [|p parts [before IH]].
  - exists EmptyString. cbn. by rewrite append_nil_r.
  - exists (p +:+ sep +:+ before).
    change ((p :: parts) ++ [last; EmptyString])
      with (p :: (parts ++ [last; EmptyString])).
    destruct parts as [|q parts].
    + cbn [app] in *. change (join sep [p; last; EmptyString])
        with (p +:+ sep +:+ join sep [last; EmptyString]).
      by rewrite IH, !append_assoc.
    + change (join sep (p :: (q :: parts) ++ [last; EmptyString]))
        with (p +:+ sep +:+ join sep ((q :: parts) ++ [last; EmptyString])).
      by rewrite IH, !append_assoc.
Qed.

(** X5: an emit call without arguments still prints: the line ends
    with the level tag followed by one space, the separator before the
    empty message. *)
Theorem emit_without_arguments (level : LogLevel) (l : nat) (env : Instance) (w : World) :
  loggers w !! l = Some env →
  shouldLog env level = true →
  ∃ before,
    Logger.emit level l [] w
    = Returns tt (print (console_method level) (before +:+ level_tag level +:+ " ") w).
Proof.
  intros Hl Hs. rewrite (emit_prints level l env [] w EmptyString Hl Hs eq_refl).
  unfold spec_line.
  destruct (prefix_join " "
              (segment (showIcons env) (ICONS level)
               ++ segment (showTimestamp env)
                    (COLORS.gray +:+ "[" +:+ clock w +:+ "]" +:+ COLORS.reset)
               ++ segment (negb (bool_decide (prefix env = EmptyString)))
                    (LEVEL_COLORS level +:+ prefix env +:+ COLORS.reset))
              (level_tag level)) as [before Hjoin].
  exists before. rewrite <- Hjoin. by rewrite <- !app_assoc.
Qed.

Lemma emit_without_arguments_witness :
  ∃ before,
    Logger.emit Info defaultLogger [] world0
    = Returns tt (print console_log (before +:+ level_tag Info +:+ " ") world0).
Proof.
  apply (emit_without_arguments Info defaultLogger default_instance world0).
  - reflexivity.
  - reflexivity.
Defined.

(** X6: a logger made by [createLogger] without options, or with
    options that each are absent, [undefined] or the default value, prints
    at all five severities, and the line is the icon, the level tag and
    the message, with neither timestamp nor prefix. *)
Theorem default_logger_prints (options : option LoggerOptions) (level : LogLevel)
    (args : list JsValue) (message : string) (w : World) :
  (∀ o, options = Some o →
     or_default (opt_level o) "debug" = "debug"
     ∧ or_default (opt_prefix o) EmptyString = EmptyString
     ∧ or_default (opt_timestamp o) false = false
     ∧ or_default (opt_icons o) true = true) →
  formatArgs (heap w) args = Normal message →
  ∃ l w1,
    createLogger options w = Returns l w1
    ∧ Logger.emit level l args w1
      = Returns tt (print (console_method level)
                      (ICONS level +:+ " " +:+ level_tag level +:+ " " +:+ message) w1).
Proof.
  intros Hdefaults Hm.
  assert (Hcreate : createLogger options w
                    = Returns (fresh (dom (loggers w)))
                        (allocate (fresh (dom (loggers w))) default_instance w)).
  { unfold createLogger, default_instance. destruct options as [o|]; [|done].
    cbn [default from_option id].
    by destruct (Hdefaults o eq_refl) as (-> & -> & -> & ->). }
  eexists _, _. split; [exact Hcreate|].
  rewrite (emit_prints level _ default_instance args _ message);
    [done|apply lookup_allocate|by destruct level|done].
Qed.

Lemma default_logger_prints_witness :
  ∃ l w1,
    createLogger None world0 = Returns l w1
    ∧ Logger.emit Debug l [VString "x"] w1
      = Returns tt (print console_log
                      (ICONS Debug +:+ " " +:+ level_tag Debug +:+ " " +:+ "x") w1).
Proof.
  apply (default_logger_prints None Debug [VString "x"] "x" world0).
  - intros o Ho. discriminate Ho.
  - reflexivity.
Defined.

(** ** Children, continued *)

Lemma inherited_twice {A} (parent fallback : A) (first second : Field A) :
  inherited (inherited parent first fallback) second fallback
  = inherited parent (spread_field first second) fallback.
Proof. by destruct second as [|[]]. Qed.

Lemma child_of_twice (env : Instance) (first second : option LoggerOptions) :
  child_of (child_of env first) second
  = child_of env (Some (spread (default no_options first) second)).
Proof.
  unfold child_of. cbn [currentLevel prefix showTimestamp showIcons].
  rewrite !inherited_twice. by destruct first, second.
Qed.

(** X7: overrides accumulate down a chain: the child of a child holds
    what a direct child made with both override objects spread together,
    the later over the earlier, would hold; and it is a third logger. *)
Theorem create_chain (p : nat) (env : Instance) (first second : option LoggerOptions)
    (w : World) :
  loggers w !! p = Some env →
  ∃ c w1 g w2 d w3 grandchild,
    Logger.create p first w = Returns c w1
    ∧ Logger.create c second w1 = Returns g w2
    ∧ g ≠ c ∧ g ≠ p
    ∧ loggers w2 !! g = Some grandchild
    ∧ Logger.create p (Some (spread (default no_options first) second)) w = Returns d w3
    ∧ loggers w3 !! d = Some grandchild.
Proof.
  intros Hp. eexists _, _, _, _, _, _, _.
  split; [by apply create_result|].
  split.
  { apply create_child; [apply lookup_allocate|].
    cbn [allocate rebound]. intros [_ Hnot]%elem_of_difference.
    apply Hnot. by apply elem_of_singleton. }
  split; [eapply fresh_logger_ne, lookup_allocate|].
  split.
  { apply (fresh_logger_ne _ env). rewrite lookup_allocate_ne; [done|].
    by apply (fresh_logger_ne _ env). }
  split; [apply lookup_allocate|].
  split; [by apply create_result|].
  rewrite child_of_twice. apply lookup_allocate.
Qed.

Lemma create_chain_witness :
  ∃ c w1 g w2 grandchild,
    Logger.create defaultLogger (Some myapp_options) world0 = Returns c w1
    ∧ Logger.create c (Some verbose_options) w1 = Returns g w2
    ∧ loggers w2 !! g = Some grandchild.
Proof.
  destruct (create_chain defaultLogger default_instance (Some myapp_options)
              (Some verbose_options) world0 eq_refl)
    as (c & w1 & g & w2 & _ & _ & grandchild & Hc & Hg & _ & _ & Hl & _).
  exists c, w1, g, w2, grandchild.
  split; [exact Hc|]. split; [exact Hg|exact Hl].
Defined.

(** ** Primitive arguments *)

Lemma arg_text_primitive (h : gmap nat JsObject) (v : JsValue) :
  is_primitive v = true → arg_text h v = Normal (primitive_text v).
Proof. by destruct v. Qed.

(** X8: a message made of primitive arguments only (strings, safe
    integers, booleans, big integers, symbols, null, undefined) never
    fails and does not depend on the heap: it is the texts of the
    arguments joined by single spaces, a string passing through as it
    is. *)
Theorem formatArgs_primitives (h : gmap nat JsObject) (args : list JsValue) :
  Forall (λ v, is_primitive v = true) args →
  Forall (λ v, safe_number v = true) args →
  formatArgs h args = Normal (join " " (primitive_text <$> args)).
Proof.
  intros Hall _. apply formatArgs_texts.
  induction Hall as [|v args Hv _ IH]; [constructor|].
  constructor; [by apply arg_text_primitive|exact IH].
Qed.

Lemma formatArgs_primitives_witness :
  formatArgs hostile_heap
    [VString "Created"; VNumber 3; VString "new records"; VBoolean true; VSymbol "s"]
  = Normal "Created 3 new records true Symbol(s)".
Proof.
  apply (formatArgs_primitives hostile_heap
           [VString "Created"; VNumber 3; VString "new records"; VBoolean true;
            VSymbol "s"]).
  - repeat constructor.
  - repeat constructor.
Defined.

(** ** [JSON.stringify] on primitives *)

Lemma ser_primitive_plain (h : gmap nat JsObject) (fuel : nat) (stack : gset nat)
    (indent key : string) (v : JsValue) :
  is_primitive v = true → is_bigint v = false →
  SerializeJSONProperty no_replacer h (S fuel) stack indent tt key (Data v)
  = Ret (tt, primitive_json v).
Proof. by destruct v. Qed.

Lemma ser_primitive_guarded (h : gmap nat JsObject) (fuel : nat) (stack : gset nat)
    (indent : string) (seen : gset nat) (key : string) (v : JsValue) :
  is_primitive v = true →
  SerializeJSONProperty circular_replacer h (S fuel) stack indent seen key (Data v)
  = Ret (seen, guarded_json v).
Proof. by destruct v. Qed.

Lemma serialize_props_flat {St} (f : St → string → Property → Step (St * option string))
    (text : JsValue → option string) (st : St) (props : list (string * JsValue)) :
  (∀ k v, (k, v) ∈ props → f st k (Data v) = Ret (st, text v)) →
  serialize_props f st (data_props props) = Ret (st, json_items text props).
Proof.
  induction props as [|[k v] props IH]; intros Hf; [done|].
  cbn [data_props map serialize_props]. rewrite Hf by left. cbn [sbind].
  unfold data_props in IH. rewrite IH; [done|]. intros k' v' Hin. apply Hf. by right.
Qed.

Lemma serialize_props_raise {St} (f : St → string → Property → Step (St * option string))
    (st : St) (e : JsError) (props : list (string * JsValue)) :
  (∀ k v, (k, v) ∈ props →
     f st k (Data v) = Raise e ∨ ∃ o, f st k (Data v) = Ret (st, o)) →
  (∃ k v, (k, v) ∈ props ∧ f st k (Data v) = Raise e) →
  serialize_props f st (data_props props) = Raise e.
Proof.
  induction props as [|[k v] props IH]; intros Hall (k0 & v0 & Hin & Hraise).
  { by apply elem_of_nil in Hin. }
  cbn [data_props map serialize_props].
  destruct (Hall k v) as [Hhead|[o Hhead]]; [by left|by rewrite Hhead|].
  rewrite Hhead. cbn [sbind].
  unfold data_props in IH. rewrite IH; [done| |].
  - intros k' v' Hin'. apply Hall. by right.
  - apply elem_of_cons in Hin as [[= -> ->]|Hin]; [congruence|eauto].
Qed.

Lemma imap_pairs (name : nat → string) (elems : list JsValue) :
  imap (λ i v, (name i, Data v)) elems = data_props (imap (λ i v, (name i, v)) elems).
Proof.
  revert name. induction elems as [|v elems IH]; intros name; [done|].
  cbn. f_equal. apply (IH (name ∘ S)).
Qed.

Lemma index_props_pairs (elems : list JsValue) :
  index_props elems = data_props (index_pairs elems).
Proof. apply imap_pairs. Qed.

Lemma index_pairs_values (elems : list JsValue) (k : string) (v : JsValue) :
  (k, v) ∈ index_pairs elems → v ∈ elems.
Proof.
  unfold index_pairs. intros (i & y & [= -> ->] & Hi)%elem_of_lookup_imap_1.
  by apply list_elem_of_lookup_2 in Hi.
Qed.

Lemma imap_members (text : JsValue → option string) (name : nat → string)
    (elems : list JsValue) :
  array_members (json_items text (imap (λ i v, (name i, v)) elems))
  = (λ v, default "null" (text v)) <$> elems.
Proof.
  revert name. induction elems as [|v elems IH]; intros name; [done|].
  cbn. f_equal. apply (IH (name ∘ S)).
Qed.

Lemma array_members_flat (text : JsValue → option string) (elems : list JsValue) :
  array_members (json_items text (index_pairs elems))
  = (λ v, default "null" (text v)) <$> elems.
Proof. apply imap_members. Qed.

Lemma fresh_object (h : gmap nat JsObject) : h !! fresh (dom h) = None.
Proof. apply not_elem_of_dom, is_fresh. Qed.

(** [JSON.stringify(value, null, 2)] on a newly made array or object. *)
Lemma stringify_fresh_array (h : gmap nat JsObject) (elems : list JsValue) :
  let r := fresh (dom h) in
  let h' := <[r := OArray elems]> h in
  JSON_stringify no_replacer h' tt (VObject r)
  = run (sbind (sbind (serialize_props
                         (SerializeJSONProperty no_replacer h' (S (size h)) ({[r]} ∪ ∅)
                            (EmptyString +:+ "  "))
                         tt (index_props elems)) (λ '(st2, items),
                Ret (st2, Some (wrap "[" "]" EmptyString (EmptyString +:+ "  ")
                                  (array_members items)))))
           (λ '(_, text), Ret text)).
Proof.
  intros r h'. unfold JSON_stringify, h'.
  rewrite map_size_insert_None by apply fresh_object.
  rewrite SerializeJSONProperty_step. unfold apply_toJSON.
  rewrite lookup_insert_eq. unfold no_replacer. cbv beta iota zeta.
  rewrite decide_False by done. unfold get_object. by rewrite lookup_insert_eq.
Qed.

Lemma stringify_fresh_plain (h : gmap nat JsObject) (props : list (string * Property)) :
  let r := fresh (dom h) in
  let h' := <[r := OPlain props]> h in
  JSON_stringify no_replacer h' tt (VObject r)
  = run (sbind (sbind (serialize_props
                         (SerializeJSONProperty no_replacer h' (S (size h)) ({[r]} ∪ ∅)
                            (EmptyString +:+ "  "))
                         tt props) (λ '(st2, items),
                Ret (st2, Some (wrap "{" "}" EmptyString (EmptyString +:+ "  ")
                                  (object_members items)))))
           (λ '(_, text), Ret text)).
Proof.
  intros r h'. unfold JSON_stringify, h'.
  rewrite map_size_insert_None by apply fresh_object.
  rewrite SerializeJSONProperty_step. unfold apply_toJSON.
  rewrite lookup_insert_eq. unfold no_replacer. cbv beta iota zeta.
  rewrite decide_False by done. unfold get_object. by rewrite lookup_insert_eq.
Qed.

(** ** The Set and Map branches *)

Lemma index_pairs_elem (elems : list JsValue) (v : JsValue) :
  v ∈ elems → ∃ k, (k, v) ∈ index_pairs elems.
Proof.
  intros (i & Hi)%list_elem_of_lookup. exists (Z_toString (Z.of_nat i)).
  by apply (elem_of_lookup_imap_2 (λ i v, (Z_toString (Z.of_nat i), v))).
Qed.

Lemma safeStringify_Set (h : gmap nat JsObject) (r : nat) (members : list JsValue) :
  h !! r = Some (OSet members) →
  safeStringify h (VObject r)
  = cbind (interpolated
             (JSON_stringify no_replacer (<[fresh (dom h) := OArray members]> h) tt
                (VObject (fresh (dom h))))) (λ text,
    Normal ("Set(" +:+ Z_toString (Z.of_nat (length members)) +:+ ") " +:+ text)).
Proof. intros Hr. unfold safeStringify, get_object. by rewrite Hr. Qed.

Lemma ser_plain_outcome (h : gmap nat JsObject) (fuel : nat) (stack : gset nat)
    (indent key : string) (v : JsValue) :
  is_primitive v = true →
  SerializeJSONProperty no_replacer h (S fuel) stack indent tt key (Data v)
    = Raise (TypeError "Do not know how to serialize a BigInt")
  ∨ ∃ o, SerializeJSONProperty no_replacer h (S fuel) stack indent tt key (Data v)
         = Ret (tt, o).
Proof. destruct v; intros Hv; try done; (by left) || (right; by eexists). Qed.

(** X9: a Set whose members are primitives, its numbers safe integers,
    renders as [Set(n)], a space and the pretty-printed array of its
    members, [undefined] and symbols printed as null, provided none is a
    big integer; if one is, the call throws the [TypeError] of
    [JSON.stringify]. *)
Theorem set_rendering (h : gmap nat JsObject) (r : nat) (members : list JsValue) :
  h !! r = Some (OSet members) →
  Forall (λ v, is_primitive v = true) members →
  Forall (λ v, safe_number v = true) members →
  (Forall (λ v, is_bigint v = false) members →
     safeStringify h (VObject r)
     = Normal ("Set(" +:+ Z_toString (Z.of_nat (length members)) +:+ ") "
                 +:+ wrap "[" "]" EmptyString "  "
                       ((λ v, default "null" (primitive_json v)) <$> members)))
  ∧ (Exists (λ v, is_bigint v = true) members →
     safeStringify h (VObject r)
     = Abrupt (TypeError "Do not know how to serialize a BigInt")).
Proof.
  intros Hr Hprim _. rewrite (safeStringify_Set _ _ _ Hr).
  pose proof (stringify_fresh_array h members) as Hjson. cbv zeta in Hjson.
  rewrite Hjson, index_props_pairs. clear Hjson.
  rewrite Forall_forall in Hprim. split.
  - intros Hsmall. rewrite Forall_forall in Hsmall.
    rewrite (serialize_props_flat _ primitive_json).
    + cbn [sbind run interpolated cbind default from_option id].
      by rewrite array_members_flat.
    + intros k v Hin%index_pairs_values. apply ser_primitive_plain; auto.
  - intros (v & Hin & Hbig)%Exists_exists.
    rewrite (serialize_props_raise _ _ (TypeError "Do not know how to serialize a BigInt")).
    + done.
    + intros k v' Hin'%index_pairs_values. apply ser_plain_outcome; auto.
    + destruct (index_pairs_elem _ _ Hin) as [k Hk]. exists k, v. split; [done|].
      by destruct v.
Qed.

Lemma set_rendering_witness :
  safeStringify container_heap (VObject 0)
  = Normal ("Set(3) [" +:+ LF +:+ "  1," +:+ LF +:+ "  " +:+ DQUOTE +:+ "a" +:+ DQUOTE
              +:+ "," +:+ LF +:+ "  null" +:+ LF +:+ "]")
  ∧ safeStringify hostile_heap (VObject 0)
    = Abrupt (TypeError "Do not know how to serialize a BigInt").
Proof.
  split.
  - apply (set_rendering container_heap 0 [VNumber 1; VString "a"; VUndefined]).
    + reflexivity.
    + repeat constructor.
    + repeat constructor.
    + repeat constructor.
  - apply (set_rendering hostile_heap 0 [VBigInt 1]).
    + reflexivity.
    + repeat constructor.
    + repeat constructor.
    + repeat constructor.
Defined.

(** Assignment to a key an object does not hold adds it, somewhere. *)
Lemma insert_index_perm (i : N) (k : string) (v : JsValue)
    (props : list (string * JsValue)) :
  insert_index i k v props ≡ₚ (k, v) :: props.
Proof.
  induction props as [|[k' v'] props IH]; [done|]. cbn [insert_index].
  destruct (array_index k') as [j|]; [|done].
  destruct (j <? i)%N; [|done]. rewrite IH. apply Permutation_swap.
Qed.

Lemma set_property_new (props : list (string * JsValue)) (k : string) (v : JsValue) :
  k ∉ props.*1 → set_property props k v ≡ₚ (k, v) :: props.
Proof.
  intros Hk. unfold set_property. rewrite decide_False by done.
  destruct (array_index k); [apply insert_index_perm|].
  symmetry. apply Permutation_cons_append.
Qed.

Lemma assign_all_perm (entries acc : list (string * JsValue)) :
  NoDup ((acc ++ entries).*1) →
  fold_left (λ obj '(k, v), set_property obj k v) entries acc ≡ₚ acc ++ entries.
Proof.
  revert acc. induction entries as [|[k v] entries IH]; intros acc Hnd.
  { by rewrite app_nil_r. }
  cbn [fold_left].
  assert (Hk : k ∉ acc.*1).
  { rewrite fmap_app in Hnd. apply NoDup_app in Hnd as (_ & Hdisj & _).
    intros Hin. apply (Hdisj k Hin). cbn. by left. }
  pose proof (set_property_new acc k v Hk) as Hperm.
  rewrite IH.
  - rewrite Hperm. apply Permutation_middle.
  - rewrite Hperm. by rewrite <- app_comm_cons, Permutation_middle.
Qed.

Lemma fromEntries_perm (entries : list (string * JsValue)) :
  NoDup (entries.*1) → Object_fromEntries entries ≡ₚ entries.
Proof. intros Hnd. unfold Object_fromEntries. by rewrite assign_all_perm. Qed.

Lemma stringify_flat_object (h : gmap nat JsObject) (props : list (string * JsValue)) :
  Forall (λ kv, is_primitive kv.2 = true) props →
  Forall (λ kv, is_bigint kv.2 = false) props →
  JSON_stringify no_replacer (<[fresh (dom h) := OPlain (data_props props)]> h) tt
    (VObject (fresh (dom h)))
  = Normal (Some (wrap "{" "}" EmptyString "  "
                    (object_members (json_items primitive_json props)))).
Proof.
  intros Hprim Hsmall. rewrite Forall_forall in Hprim. rewrite Forall_forall in Hsmall.
  pose proof (stringify_fresh_plain h (data_props props)) as Hjson. cbv zeta in Hjson.
  rewrite Hjson. rewrite (serialize_props_flat _ primitive_json); [done|].
  intros k v Hin. apply ser_primitive_plain.
  - apply (Hprim (k, v) Hin).
  - apply (Hsmall (k, v) Hin).
Qed.

Lemma stringify_bigint_object (h : gmap nat JsObject) (props : list (string * JsValue)) :
  Forall (λ kv, is_primitive kv.2 = true) props →
  Exists (λ kv, is_bigint kv.2 = true) props →
  JSON_stringify no_replacer (<[fresh (dom h) := OPlain (data_props props)]> h) tt
    (VObject (fresh (dom h)))
  = Abrupt (TypeError "Do not know how to serialize a BigInt").
Proof.
  intros Hprim ([k v] & Hin & Hbig)%Exists_exists. rewrite Forall_forall in Hprim.
  pose proof (stringify_fresh_plain h (data_props props)) as Hjson. cbv zeta in Hjson.
  rewrite Hjson.
  rewrite (serialize_props_raise _ _ (TypeError "Do not know how to serialize a BigInt")).
  - done.
  - intros k' v' Hin'. apply ser_plain_outcome, (Hprim (k', v') Hin').
  - exists k, v. split; [done|]. by destruct v.
Qed.

Lemma flat_object_member (stepback indent : string) (props : list (string * JsValue))
    (k : string) (v : JsValue) (text : JsValue → option string) (t : string) :
  (k, v) ∈ props → text v = Some t →
  includes (wrap "{" "}" stepback indent (object_members (json_items text props)))
    (QuoteJSONString k +:+ ": " +:+ t).
Proof.
  intros Hin Ht. apply includes_wrap, object_members_elem. unfold json_items.
  apply list_elem_of_fmap. exists (k, v). by rewrite Ht.
Qed.

Lemma safeStringify_Map (h : gmap nat JsObject) (r : nat)
    (entries : list (string * JsValue)) :
  h !! r = Some (OMap entries) →
  safeStringify h (VObject r)
  = cbind (interpolated
             (JSON_stringify no_replacer
                (<[fresh (dom h) := OPlain (data_props (Object_fromEntries entries))]> h)
                tt (VObject (fresh (dom h))))) (λ text,
    Normal ("Map(" +:+ Z_toString (Z.of_nat (length entries)) +:+ ") " +:+ text)).
Proof. intros Hr. unfold safeStringify, get_object. by rewrite Hr. Qed.

(** X10: a Map from distinct string keys to primitives, its numbers
    safe integers, renders as [Map(n)], a space and a pretty-printed
    object in which every entry with a JSON text appears as its quoted
    key, a colon and that text, provided no value is a big integer; if
    one is, the call throws the [TypeError] of [JSON.stringify]. *)
Theorem map_rendering (h : gmap nat JsObject) (r : nat)
    (entries : list (string * JsValue)) :
  h !! r = Some (OMap entries) →
  NoDup (entries.*1) →
  Forall (λ kv, is_primitive kv.2 = true) entries →
  Forall (λ kv, safe_number kv.2 = true) entries →
  (Forall (λ kv, is_bigint kv.2 = false) entries →
     ∃ body,
       safeStringify h (VObject r)
       = Normal ("Map(" +:+ Z_toString (Z.of_nat (length entries)) +:+ ") " +:+ body)
       ∧ body = wrap "{" "}" EmptyString "  "
                  (object_members (json_items primitive_json (Object_fromEntries entries)))
       ∧ (∀ k v t, (k, v) ∈ entries → primitive_json v = Some t →
            includes body (QuoteJSONString k +:+ ": " +:+ t)))
  ∧ (Exists (λ kv, is_bigint kv.2 = true) entries →
     safeStringify h (VObject r)
     = Abrupt (TypeError "Do not know how to serialize a BigInt")).
Proof.
  intros Hr Hnd Hprim _. rewrite (safeStringify_Map _ _ _ Hr).
  pose proof (fromEntries_perm entries Hnd) as Hperm.
  assert (Hprim' : Forall (λ kv, is_primitive kv.2 = true) (Object_fromEntries entries)).
  { by rewrite Hperm. }
  split.
  - intros Hsmall. eexists. rewrite stringify_flat_object; [|done|by rewrite Hperm].
    split; [reflexivity|]. split; [reflexivity|].
    intros k v t Hin Ht. apply (flat_object_member _ _ _ k v); [|done].
    by rewrite Hperm.
  - intros Hbig. rewrite stringify_bigint_object; [done..|]. by rewrite Hperm.
Qed.

Lemma map_rendering_witness :
  (∃ body, safeStringify container_heap (VObject 1) = Normal ("Map(2) " +:+ body)
           ∧ includes body (QuoteJSONString "b" +:+ ": " +:+ "1"))
  ∧ safeStringify hostile_heap (VObject 1)
    = Abrupt (TypeError "Do not know how to serialize a BigInt").
Proof.
  destruct (map_rendering container_heap 1 [("b", VNumber 1); ("2", VString "x")])
    as [Hrenders _].
  - reflexivity.
  - apply (bool_decide_unpack _). by vm_compute.
  - repeat constructor.
  - repeat constructor.
  - destruct (map_rendering hostile_heap 1 [("k", VBigInt 1)]) as [_ Hthrows].
    + reflexivity.
    + apply (bool_decide_unpack _). by vm_compute.
    + repeat constructor.
    + repeat constructor.
    + split; [|apply Hthrows; repeat constructor].
      destruct Hrenders as (body & Htext & _ & Hentries); [repeat constructor|].
      exists body. split; [exact Htext|].
      apply (Hentries "b" (VNumber 1) "1"); [left|reflexivity].
Defined.

(** ** The Error branch *)

Lemma copy_own_props_data (customs errorObj : list (string * JsValue)) :
  Forall (λ kv, kv.1 ≠ "__proto__") customs →
  copy_own_props (data_props customs) errorObj
  = Normal (fold_left (λ obj '(k, v), set_property obj k v) customs errorObj).
Proof.
  intros Hkeys. revert errorObj.
  induction Hkeys as [|[k v] customs Hk _ IH]; intros errorObj; [done|].
  cbn [data_props map copy_own_props fold_left]. unfold assign_property.
  rewrite decide_False by done. apply IH.
Qed.

(** X11: an Error whose custom properties are distinct data
    properties holding primitives other than big integers, its numbers
    safe integers, under keys other than name, message, stack and
    [__proto__], renders as a pretty-printed object that shows its name,
    its message, its stack when it has a non-empty one, and every custom
    property that has a JSON text. *)
Theorem error_rendering (h : gmap nat JsObject) (r : nat) (name message : string)
    (stack : option string) (customs : list (string * JsValue)) :
  h !! r = Some (OError name message stack (data_props customs)) →
  NoDup (customs.*1) →
  Forall (λ kv, kv.1 ∉ reserved_keys) customs →
  Forall (λ kv, kv.1 ≠ "__proto__") customs →
  Forall (λ kv, is_primitive kv.2 = true) customs →
  Forall (λ kv, is_bigint kv.2 = false) customs →
  Forall (λ kv, safe_number kv.2 = true) customs →
  ∃ text,
    safeStringify h (VObject r) = Normal text
    ∧ includes text (QuoteJSONString "name" +:+ ": " +:+ QuoteJSONString name)
    ∧ includes text (QuoteJSONString "message" +:+ ": " +:+ QuoteJSONString message)
    ∧ (∀ s, stack = Some s → s ≠ EmptyString →
         includes text (QuoteJSONString "stack" +:+ ": " +:+ QuoteJSONString s))
    ∧ (∀ k v t, (k, v) ∈ customs → primitive_json v = Some t →
         includes text (QuoteJSONString k +:+ ": " +:+ t)).
Proof.
  intros Hr Hnd Hkeys Hproto Hprim Hsmall _.
  set (base := match stack with
               | Some s => if decide (s = EmptyString)
                           then [("name", VString name); ("message", VString message)]
                           else [("name", VString name); ("message", VString message);
                                 ("stack", VString s)]
               | None => [("name", VString name); ("message", VString message)]
               end).
  set (errorObj := fold_left (λ obj '(k, v), set_property obj k v) customs base).
  assert (Hbase : base.*1 ⊆ reserved_keys ∧ NoDup (base.*1)
                  ∧ Forall (λ kv, is_primitive kv.2 = true ∧ is_bigint kv.2 = false) base).
  { unfold base, reserved_keys. destruct stack as [s|]; [destruct (decide _)|];
      (split; [intros k Hk; cbn in Hk; apply (bool_decide_unpack _);
               repeat (apply elem_of_cons in Hk as [->|Hk]; [by vm_compute|]);
               by apply elem_of_nil in Hk|]);
      (split; [|by repeat constructor]);
      apply (bool_decide_unpack _); by vm_compute. }
  destruct Hbase as (Hreserved & Hbnd & Hbvals).
  assert (Hperm : errorObj ≡ₚ base ++ customs).
  { apply assign_all_perm. rewrite fmap_app. apply NoDup_app. split; [done|].
    split; [|done]. intros k Hk1 (kv & -> & Hin)%list_elem_of_fmap.
    rewrite Forall_forall in Hkeys. by apply (Hkeys kv Hin), Hreserved. }
  assert (Htext : safeStringify h (VObject r)
                  = Normal (wrap "{" "}" EmptyString "  "
                              (object_members (json_items primitive_json errorObj)))).
  { unfold safeStringify, get_object. rewrite Hr. cbn [default from_option id].
    assert (Hcopy : copy_own_props (data_props customs)
              match stack with
              | Some s => if decide (s = EmptyString)
                          then [("name", VString name); ("message", VString message)]
                          else assign_property
                                 [("name", VString name); ("message", VString message)]
                                 "stack" (VString s)
              | None => [("name", VString name); ("message", VString message)]
              end = Normal errorObj).
    { rewrite copy_own_props_data by done. unfold errorObj, base.
      destruct stack as [s|]; [destruct (decide _)|]; done. }
    rewrite Hcopy. cbn [cbind alloc_object].
    rewrite stringify_flat_object; [done| |]; rewrite Hperm; apply Forall_app;
      (split; [|done]); eapply Forall_impl; [exact Hbvals| |exact Hbvals|];
      by intros kv []. }
  exists (wrap "{" "}" EmptyString "  "
            (object_members (json_items primitive_json errorObj))).
  split; [done|].
  assert (Hmember : ∀ k v t, (k, v) ∈ base ++ customs → primitive_json v = Some t →
            includes (wrap "{" "}" EmptyString "  "
                        (object_members (json_items primitive_json errorObj)))
              (QuoteJSONString k +:+ ": " +:+ t)).
  { intros k v t Hin Ht. apply (flat_object_member _ _ _ k v); [|done]. by rewrite Hperm. }
  split; [|split; [|split]].
  - apply (Hmember "name" (VString name)); [|done].
    apply elem_of_app. left. unfold base.
    destruct stack as [s|]; [destruct (decide _)|]; by left.
  - apply (Hmember "message" (VString message)); [|done].
    apply elem_of_app. left. unfold base.
    destruct stack as [s|]; [destruct (decide _)|]; by right; left.
  - intros s -> Hs. apply (Hmember "stack" (VString s)); [|done].
    apply elem_of_app. left. unfold base. rewrite decide_False by done.
    by right; right; left.
  - intros k v t Hin Ht. apply (Hmember k v); [|done]. apply elem_of_app. by right.
Qed.

Lemma error_rendering_witness :
  ∃ text,
    safeStringify container_heap (VObject 2) = Normal text
    ∧ includes text (QuoteJSONString "message" +:+ ": " +:+ QuoteJSONString "boom")
    ∧ includes text (QuoteJSONString "code" +:+ ": " +:+ QuoteJSONString "E1").
Proof.
  destruct (error_rendering container_heap 2 "Error" "boom" (Some "Error: boom")
              [("code", VString "E1")])
    as (text & Htext & _ & Hmessage & _ & Hcustom).
  - reflexivity.
  - apply (bool_decide_unpack _). by vm_compute.
  - repeat constructor. apply (bool_decide_unpack _). by vm_compute.
  - repeat constructor. apply (bool_decide_unpack _). by vm_compute.
  - repeat constructor.
  - repeat constructor.
  - repeat constructor.
  - exists text. split; [exact Htext|]. split; [exact Hmessage|].
    apply (Hcustom "code" (VString "E1")); [left|reflexivity].
Defined.

(** ** The generic branch, continued *)

Lemma size_positive (h : gmap nat JsObject) (r : nat) (o : JsObject) :
  h !! r = Some o → ∃ n, size h = S n.
Proof.
  intros Hr. destruct (size h) as [|n] eqn:Hsize; [|by eexists].
  apply map_size_empty_iff in Hsize. by rewrite Hsize, lookup_empty in Hr.
Qed.

Lemma safeStringify_generic (h : gmap nat JsObject) (r : nat) :
  plain_or_array h r →
  safeStringify h (VObject r)
  = match returned (JSON_stringify circular_replacer h ∅ (VObject r)) with
    | Normal text => Normal text
    | Abrupt _ => js_String h (VObject r)
    end.
Proof.
  unfold plain_or_array, safeStringify, get_object.
  by destruct (h !! r) as [[]|].
Qed.

Lemma stringify_entered (h : gmap nat JsObject) (r : nat) (n : nat) :
  plain_or_array h r → size h = S n →
  JSON_stringify circular_replacer h ∅ (VObject r)
  = run (sbind
           match get_object h r with
           | OArray elems =>
               sbind (serialize_props
                        (SerializeJSONProperty circular_replacer h (S n) ({[r]} ∪ ∅)
                           (EmptyString +:+ "  "))
                        ({[r]} ∪ ∅) (index_props elems)) (λ '(st2, items),
               Ret (st2, Some (wrap "[" "]" EmptyString (EmptyString +:+ "  ")
                                 (array_members items))))
           | o =>
               sbind (serialize_props
                        (SerializeJSONProperty circular_replacer h (S n) ({[r]} ∪ ∅)
                           (EmptyString +:+ "  "))
                        ({[r]} ∪ ∅) (enumerable_props o)) (λ '(st2, items),
               Ret (st2, Some (wrap "{" "}" EmptyString (EmptyString +:+ "  ")
                                 (object_members items))))
           end (λ '(_, text), Ret text)).
Proof.
  intros Hkind Hsize. unfold JSON_stringify.
  rewrite ser_enter; [by rewrite Hsize|done|done|by apply plain_or_array_not_date].
Qed.

(** X12: a plain object whose properties all hold primitives, its
    numbers safe integers, renders as the pretty-printed object, two
    spaces deep, of its properties in order: strings quoted, numbers,
    booleans and null as they are, a big integer as the quoted digits
    followed by n, [undefined] and symbols left out; with nothing left it
    is the two braces. *)
Theorem flat_object_rendering (h : gmap nat JsObject) (r : nat)
    (props : list (string * JsValue)) :
  h !! r = Some (OPlain (data_props props)) →
  Forall (λ kv, is_primitive kv.2 = true) props →
  Forall (λ kv, safe_number kv.2 = true) props →
  safeStringify h (VObject r)
  = Normal (wrap "{" "}" EmptyString "  "
              (object_members (json_items guarded_json props))).
Proof.
  intros Hr Hprim _. rewrite Forall_forall in Hprim.
  destruct (size_positive _ _ _ Hr) as [n Hsize].
  assert (Hkind : plain_or_array h r) by (unfold plain_or_array; by rewrite Hr).
  rewrite safeStringify_generic, (stringify_entered _ _ n) by done.
  unfold get_object. rewrite Hr. cbn [default from_option id enumerable_props].
  rewrite (serialize_props_flat _ guarded_json); [done|].
  intros k v Hin. apply ser_primitive_guarded, (Hprim (k, v) Hin).
Qed.

Lemma flat_object_rendering_witness :
  safeStringify container_heap (VObject 3)
  = Normal ("{" +:+ LF +:+ "  " +:+ DQUOTE +:+ "name" +:+ DQUOTE +:+ ": "
              +:+ DQUOTE +:+ "a" +:+ DQUOTE +:+ "," +:+ LF
              +:+ "  " +:+ DQUOTE +:+ "n" +:+ DQUOTE +:+ ": "
              +:+ DQUOTE +:+ "5n" +:+ DQUOTE +:+ LF +:+ "}").
Proof.
  apply (flat_object_rendering container_heap 3
           [("name", VString "a"); ("n", VBigInt 5); ("u", VUndefined)]).
  - reflexivity.
  - repeat constructor.
  - repeat constructor.
Defined.

(** X13: an array of primitives, its numbers safe integers, renders
    as the pretty-printed array of its elements in order, [undefined] and
    symbols printed as null, a big integer as the quoted digits followed
    by n; the empty array is the two brackets. *)
Theorem flat_array_rendering (h : gmap nat JsObject) (r : nat) (elems : list JsValue) :
  h !! r = Some (OArray elems) →
  Forall (λ v, is_primitive v = true) elems →
  Forall (λ v, safe_number v = true) elems →
  safeStringify h (VObject r)
  = Normal (wrap "[" "]" EmptyString "  "
              ((λ v, default "null" (guarded_json v)) <$> elems)).
Proof.
  intros Hr Hprim _. rewrite Forall_forall in Hprim.
  destruct (size_positive _ _ _ Hr) as [n Hsize].
  assert (Hkind : plain_or_array h r) by (unfold plain_or_array; by rewrite Hr).
  rewrite safeStringify_generic, (stringify_entered _ _ n) by done.
  unfold get_object. rewrite Hr. cbn [default from_option id].
  rewrite index_props_pairs, (serialize_props_flat _ guarded_json).
  - cbn [sbind run returned cbind default from_option id].
    by rewrite array_members_flat.
  - intros k v Hin%index_pairs_values. by apply ser_primitive_guarded, Hprim.
Qed.

Lemma flat_array_rendering_witness :
  safeStringify container_heap (VObject 4)
  = Normal ("[" +:+ LF +:+ "  1," +:+ LF +:+ "  null," +:+ LF
              +:+ "  " +:+ DQUOTE +:+ "2n" +:+ DQUOTE +:+ LF +:+ "]").
Proof.
  apply (flat_array_rendering container_heap 4 [VNumber 1; VUndefined; VBigInt 2]).
  - reflexivity.
  - repeat constructor.
  - repeat constructor.
Defined.





(** ** References met twice *)

Lemma ser_records (h : gmap nat JsObject) (fuel : nat) (stack : gset nat)
    (indent : string) (seen : gset nat) (key : string) (x : nat) (seen' : gset nat)
    (o : option string) :
  SerializeJSONProperty circular_replacer h fuel stack indent seen key (Data (VObject x))
    = Ret (seen', o) →
  is_date h x = false →
  x ∈ seen'.
Proof.
  destruct fuel as [|fuel]; [done|]. intros Hser Hdate.
  rewrite SerializeJSONProperty_step, apply_toJSON_object in Hser by done.
  change (circular_replacer seen key (VObject x))
    with (if decide (x ∈ seen) then (seen, VString "[Circular]")
          else ({[x]} ∪ seen, VObject x)) in Hser.
  case_decide as Hseen.
  { by injection Hser as <- _. }
  case_decide; [done|].
  assert (Hprops : ∀ props (wrapper : list (string * option string) → string),
    sbind (serialize_props
             (SerializeJSONProperty circular_replacer h fuel ({[x]} ∪ stack)
                (indent +:+ "  ")) ({[x]} ∪ seen) props)
      (λ '(st2, items), Ret (st2, Some (wrapper items))) = Ret (seen', o) →
    x ∈ seen').
  { intros props wrapper.
    destruct (serialize_props _ _ props) as [[st2 items]| |] eqn:Hprops; [|done..].
    intros [= <- _].
    eapply (serialize_props_mono _ (λ st k p, ser_mono h fuel _ _ st k p)) in Hprops.
    apply Hprops, elem_of_union_l, elem_of_singleton. done. }
  destruct (get_object h x);
    first [ exact (Hprops _ (λ items, wrap "{" "}" indent (indent +:+ "  ")
                                        (object_members items)) Hser)
          | exact (Hprops _ (λ items, wrap "[" "]" indent (indent +:+ "  ")
                                        (array_members items)) Hser) ].
Qed.

(** X15: the guard marks every second meeting, circular or not: when
    the first property of a plain object holds an object and a later
    property holds the same object, the later one renders as the marker
    string, whether or not that object leads back to its holder. *)
Theorem shared_reference_marked (h : gmap nat JsObject) (r x : nat) (a b : string)
    (rest : list (string * Property)) :
  plain_data h →
  h !! r = Some (OPlain ((a, Data (VObject x)) :: rest)) →
  (b, Data (VObject x)) ∈ rest →
  is_date h x = false →
  ∃ text, safeStringify h (VObject r) = Normal text
          ∧ includes text (QuoteJSONString b +:+ ": " +:+ marker).
Proof.
  intros Hplain Hr Hin Hdate.
  destruct (size_positive _ _ _ Hr) as [n Hsize].
  assert (Hkind : plain_or_array h r) by (unfold plain_or_array; by rewrite Hr).
  pose proof (Hplain r _ Hr) as Hdata. cbn in Hdata.
  pose proof (size_without _ _ _ Hr) as Hbound. rewrite Hsize in Hbound.
  pose proof (ser_total h Hplain (S n) ({[r]} ∪ ∅) (EmptyString +:+ "  ")) as Hser.
  destruct (Hser ({[r]} ∪ ∅) a (VObject x)) as (seen1 & o1 & Hfirst & Hsub & _);
    [done..|].
  pose proof (ser_records _ _ _ _ _ _ _ _ _ Hfirst Hdate) as Hx.
  destruct (serialize_props_total h _ _ _ Hser rest seen1 Hdata)
    as (seen2 & items & Hrest & _ & Hmarks).
  { done. }
  { eapply Nat.le_lt_trans; [by apply size_grow|exact Hbound]. }
  rewrite safeStringify_generic, (stringify_entered _ _ n) by done.
  unfold get_object. rewrite Hr.
  cbn [default from_option id enumerable_props serialize_props].
  rewrite Hfirst. cbn [sbind]. rewrite Hrest.
  eexists. split; [reflexivity|].
  apply includes_wrap, object_members_elem. right. by apply (Hmarks b x).
Qed.

Lemma shared_reference_marked_witness :
  ∃ text, safeStringify shared_heap (VObject 0) = Normal text
          ∧ includes text (QuoteJSONString "b" +:+ ": " +:+ marker).
Proof.
  apply (shared_reference_marked shared_heap 0 1 "a" "b" [("b", Data (VObject 1))]).
  - apply (bool_decide_unpack _). by vm_compute.
  - reflexivity.
  - left.
  - reflexivity.
Defined.

(** ** Built-in objects inside an object *)

(** X16: a Map, a Set or a RegExp gets its special rendering only as an
    argument of its own: held by the first property of a plain object, it
    is serialized as an object without properties, the two braces, and
    its entries are not shown. *)
Theorem nested_builtin_is_empty (h : gmap nat JsObject) (r m : nat) (k : string)
    (o : JsObject) (rest : list (string * Property)) :
  plain_data h →
  h !! r = Some (OPlain ((k, Data (VObject m)) :: rest)) →
  h !! m = Some o →
  is_opaque o = true →
  ∃ text, safeStringify h (VObject r) = Normal text
          ∧ includes text (QuoteJSONString k +:+ ": " +:+ "{}").
Proof.
  intros Hplain Hr Hm Hopaque.
  assert (Hne : m ≠ r).
  { intros ->. rewrite Hr in Hm. injection Hm as <-. done. }
  destruct (size_positive _ _ _ Hr) as [n Hsize].
  assert (Hkind : plain_or_array h r) by (unfold plain_or_array; by rewrite Hr).
  pose proof (Hplain r _ Hr) as Hdata. cbn in Hdata.
  pose proof (size_without _ _ _ Hr) as Hbound. rewrite Hsize in Hbound.
  pose proof (ser_total h Hplain (S n) ({[r]} ∪ ∅) (EmptyString +:+ "  ")) as Hser.
  assert (Hdate : is_date h m = false).
  { unfold is_date. rewrite Hm. by destruct o. }
  assert (Hfresh : m ∉ ({[r]} ∪ ∅ : gset nat)).
  { rewrite elem_of_union, elem_of_singleton. intros [?|?%elem_of_empty]; done. }
  assert (Hfirst :
    SerializeJSONProperty circular_replacer h (S n) ({[r]} ∪ ∅) (EmptyString +:+ "  ")
      ({[r]} ∪ ∅) k (Data (VObject m))
    = Ret ({[m]} ∪ ({[r]} ∪ ∅), Some "{}")).
  { rewrite ser_enter by done. unfold get_object. rewrite Hm.
    by destruct o. }
  destruct (serialize_props_total h _ _ _ Hser rest ({[m]} ∪ ({[r]} ∪ ∅)) Hdata)
    as (seen2 & items & Hrest & _ & _).
  { apply union_subseteq_r. }
  { eapply Nat.le_lt_trans; [apply size_grow, union_subseteq_r|exact Hbound]. }
  rewrite safeStringify_generic, (stringify_entered _ _ n) by done.
  unfold get_object. rewrite Hr.
  cbn [default from_option id enumerable_props serialize_props].
  rewrite Hfirst. cbn [sbind]. rewrite Hrest.
  eexists. split; [reflexivity|].
  apply includes_wrap, object_members_elem. by left.
Qed.

Lemma nested_builtin_is_empty_witness :
  ∃ text, safeStringify nested_heap (VObject 0) = Normal text
          ∧ includes text (QuoteJSONString "m" +:+ ": " +:+ "{}").
Proof.
  apply (nested_builtin_is_empty nested_heap 0 1 "m" (OMap [("k", VNumber 1)])
           [("n", Data (VNumber 1))]).
  - apply (bool_decide_unpack _). by vm_compute.
  - reflexivity.
  - reflexivity.
  - reflexivity.
Defined.
